(** * Health Bridge dashboard card: a shallow embedding

    Source: [custom_components/health_bridge/health-bridge-card.js], the
    custom element [HealthBridgeCard].  The card receives the Home
    Assistant state table through its [hass] setter, keeps the sensors
    whose friendly name carries a user in parentheses, groups them by that
    user and redraws its whole content.

    The embedding follows the JavaScript as written:
    - strings are [string]; the three characters the code inspects
      (opening and closing parenthesis, space) and the characters of
      ['sensor.'] and ['_'] are ASCII, so a UTF-8 byte string matches
      exactly where the UTF-16 string of the browser does;
    - a plain JavaScript object used as a table is a list of own
      properties in creation order, and [own_keys] is [Object.keys] with
      the ordering of the language (array indices first, ascending);
    - the configuration object is shared with the caller, so it lives in a
      store and the card holds a reference to it; an object of the store
      says whether it is extensible and which of its fields are
      read-only, since an assignment to it can fail;
    - a method returns the new state together with an [outcome], which is
      [Normal] or the exception thrown. *)

From Stdlib Require Import Ascii String NArith.
From stdpp Require Import base option list sorting strings gmap.

#[local] Set Warnings "-register-all,-clear-no-such-hyp".


Local Open Scope N_scope.
Local Open Scope stdpp_scope.

(** ** Strings and the two regular expressions *)

Module JsString.

(** The double quote of the template literal in [updateCard]. *)
Definition dquote : string := String "034"%char "".

(** [s.includes(c)] for a one-character needle. *)
Fixpoint includes (c : ascii) (s : string) : bool :=
  match s with
  | EmptyString => false
  | String a s' => if Ascii.eqb a c then true else includes c s'
  end.

(** [s.startsWith(p)]. *)
Fixpoint startsWith (p s : string) : bool :=
  match p, s with
  | EmptyString, _ => true
  | String a p', String b s' => Ascii.eqb a b && startsWith p' s'
  | String _ _, EmptyString => false
  end.

(** A string is truthy when it is not empty. *)
Definition truthy (s : string) : bool :=
  match s with EmptyString => false | String _ _ => true end.

(** The tail [[^)]*\)$] of both patterns, matched from the first
    character of [s]: the run of characters other than the closing
    parenthesis, which must be followed by one closing parenthesis and
    the end of the input.  The run is greedy and cannot give a character
    back, since the character after it has to be a closing parenthesis. *)
Fixpoint run_to_close (s : string) : option string :=
  match s with
  | EmptyString => None
  | String a s' =>
      if Ascii.eqb a ")"
      then match s' with EmptyString => Some EmptyString | String _ _ => None end
      else String a <$> run_to_close s'
  end.

(** [[^)]+\)$]: as above, and the run has at least one character. *)
Definition group_to_close (s : string) : option string :=
  match run_to_close s with
  | Some (String a b) => Some (String a b)
  | _ => None
  end.

(** [s.match(/\(([^)]+)\)$/)], giving the capture [matches[1]] of the
    leftmost match, or [None] for the [null] of a failed match. *)
Fixpoint match_user (s : string) : option string :=
  match s with
  | EmptyString => None
  | String a s' =>
      if Ascii.eqb a "("
      then match group_to_close s' with
           | Some u => Some u
           | None => match_user s'
           end
      else match_user s'
  end.

(** [s.replace(/ \([^)]+\)$/, '')]: the leftmost match runs to the end of
    the input, so replacing it leaves what stands before it. *)
Fixpoint strip_user (s : string) : string :=
  match s with
  | EmptyString => EmptyString
  | String a s' =>
      let here :=
        Ascii.eqb a " " &&
        match s' with
        | String b s'' => Ascii.eqb b "(" && bool_decide (is_Some (group_to_close s''))
        | EmptyString => false
        end in
      if here then EmptyString else String a (strip_user s')
  end.

(** Array indices: the canonical decimal numerals below [2^32 - 1].
    [Object.keys] lists the properties named by them first. *)
Definition digit (a : ascii) : option N :=
  let n := N_of_ascii a in
  if (48 <=? n) && (n <=? 57) then Some (n - 48) else None.

Fixpoint digits (acc : N) (s : string) : option N :=
  match s with
  | EmptyString => Some acc
  | String a s' =>
      match digit a with
      | Some d => digits (acc * 10 + d) s'
      | None => None
      end
  end.

Definition array_index (s : string) : option N :=
  match s with
  | EmptyString => None
  | String a s' =>
      if Ascii.eqb a "0" && truthy s' then None
      else match digits 0 s with
           | Some n => if n <? 4294967295 then Some n else None
           | None => None
           end
  end.

End JsString.

(** ** Plain objects *)

Module JsObject.
Import JsString.

(** The own enumerable properties of an object, in creation order. *)
Abbreviation t A := (list (string * A)).

(** An object has each property name once. *)
Definition wf {A} (o : t A) : Prop := NoDup o.*1.

Fixpoint own_get {A} (k : string) (o : t A) : option A :=
  match o with
  | [] => None
  | (k', v) :: o' => if decide (k' = k) then Some v else own_get k o'
  end.

(** [o[k] = v]: an existing property keeps its place, a new one goes
    last. *)
Fixpoint own_set {A} (k : string) (v : A) (o : t A) : t A :=
  match o with
  | [] => [(k, v)]
  | (k', v') :: o' =>
      if decide (k' = k) then (k, v) :: o' else (k', v') :: own_set k v o'
  end.

(** [delete o[k]]. *)
Definition own_delete {A} (k : string) (o : t A) : t A :=
  filter (λ p, p.1 ≠ k) o.

(** Ascending insertion of an array index among sorted ones. *)
Fixpoint insert_index (n : N) (k : string) (l : list (N * string))
  : list (N * string) :=
  match l with
  | [] => [(n, k)]
  | (m, k') :: l' =>
      if n <=? m then (n, k) :: l else (m, k') :: insert_index n k l'
  end.

Definition index_keys (ks : list string) : list (N * string) :=
  foldr (λ k acc, match array_index k with
                  | Some n => insert_index n k acc
                  | None => acc
                  end) [] ks.

Definition is_name (k : string) : Prop := array_index k = None.

(** [Object.keys(o)]: array indices in ascending numeric order, then the
    other names in creation order. *)
Definition own_keys {A} (o : t A) : list string :=
  (index_keys o.*1).*2 ++ filter is_name o.*1.

(** The property names every plain object inherits from
    [Object.prototype].  Reading one of them from an object that has no
    own property of that name yields the inherited function (or, for
    [__proto__], the prototype itself): a truthy value that is not an
    array. *)
Definition prototype_keys : list string :=
  [ "constructor"; "hasOwnProperty"; "isPrototypeOf";
    "propertyIsEnumerable"; "toLocaleString"; "toString"; "valueOf";
    "__proto__"; "__defineGetter__"; "__defineSetter__";
    "__lookupGetter__"; "__lookupSetter__" ].

Definition inherited (k : string) : bool := bool_decide (k ∈ prototype_keys).

End JsObject.

(** ** Values, the store and completions *)

(** The primitive values a configuration field holds in this model.
    Numbers, functions and nested objects are left out of the type. *)
Inductive prim : Type :=
| PUndefined
| PNull
| PBool (b : bool)
| PStr (s : string).

Definition loc : Type := positive.

(** What a caller can pass to [setConfig]: a primitive or a reference to
    an object of the store. *)
Inductive jsval : Type :=
| VPrim (p : prim)
| VRef (l : loc).

(** An object of the store: its own fields in creation order, whether it
    is extensible, and the names of its read-only fields.  The objects are
    plain: data fields only, and nothing inherited but the properties of
    [Object.prototype]. *)
Record object : Type := {
  fields : JsObject.t prim;
  extensible : bool;
  readonly : list string
}.

(** An object literal, and the same object after [Object.freeze]. *)
Definition plain (o : JsObject.t prim) : object :=
  {| fields := o; extensible := true; readonly := [] |}.

Definition frozen (o : JsObject.t prim) : object :=
  {| fields := o; extensible := false; readonly := o.*1 |}.

(** Whether the assignment [o[k] = v] succeeds, for a name [k] that is
    not inherited: an own field has to be writable, and a new field needs
    an extensible object.  Where it fails, strict-mode code throws a
    [TypeError]. *)
Definition accepts (k : string) (o : object) : bool :=
  match JsObject.own_get k (fields o) with
  | Some _ => bool_decide (k ∉ readonly o)
  | None => extensible o
  end.

(** The store of configuration objects. *)
Abbreviation heap := (gmap loc object).

Inductive js_error : Type := TypeError.

Inductive outcome : Type :=
| Normal
| Throw (e : js_error).

Definition prim_truthy (p : prim) : bool :=
  match p with
  | PUndefined | PNull => false
  | PBool b => b
  | PStr s => JsString.truthy s
  end.

(** The conversion applied by the [textContent] setter, whose argument is
    a nullable string: [null] and [undefined] clear the element. *)
Definition prim_text (p : prim) : string :=
  match p with
  | PUndefined | PNull => ""
  | PBool true => "true"
  | PBool false => "false"
  | PStr s => s
  end.

(** The object a reference points to; a reference nothing was stored
    under reads as a plain object without properties. *)
Definition cell (σ : heap) (l : loc) : object := default (plain []) (σ !! l).

(** Its fields. *)
Definition deref (σ : heap) (l : loc) : JsObject.t prim := fields (cell σ l).

(** [o.title] of a configuration object ([title] is not inherited). *)
Definition get_title (o : JsObject.t prim) : prim :=
  default PUndefined (JsObject.own_get "title" o).

(** [xs.forEach(f)] for a callback that updates [S] and may throw: the
    first exception ends the loop and keeps the state reached. *)
Fixpoint forEach {A S : Type} (f : A → S → S * outcome) (xs : list A) (s : S)
  : S * outcome :=
  match xs with
  | [] => (s, Normal)
  | x :: xs' =>
      match f x s with
      | (s', Normal) => forEach f xs' s'
      | (s', Throw e) => (s', Throw e)
      end
  end.

(** ** The state table of Home Assistant *)

Record Attributes : Type := {
  friendly_name : option string;
  unit_of_measurement : option string;
  icon : option string
}.

(** One entry of [hass.states]; [attributes] may be missing. *)
Record EntityState : Type := {
  state : string;
  attributes : option Attributes
}.

(** [hass]: the table maps an entity id to its state, or to [None] for a
    [null] or [undefined] entry. *)
Record Hass : Type := {
  states : JsObject.t (option EntityState)
}.

(** ** The rendered tree *)

Inductive node : Type :=
| Div (className : string) (children : list node)
| TextDiv (className : string) (textContent : string)
| HtmlDiv (className : string) (innerHTML : string)
| Style (textContent : string).

(** ** The card *)

Module HealthBridgeCard.
Import JsString JsObject.

(** The fields of the element: [this._hass], [this.config] (a reference
    into the store) and the children of [this.content], [None] until the
    first [hass] assignment creates the container. *)
Record t : Type := {
  _hass : option Hass;
  config : option loc;
  content : option (list node)
}.

(** [constructor]. *)
Definition new : t := {| _hass := None; config := None; content := None |}.

Definition style_text : string :=
"
      .card-content {
        padding: 16px;
      }
      .header {
        font-size: 20px;
        font-weight: bold;
        margin-bottom: 16px;
      }
      .user-section {
        margin-bottom: 24px;
      }
      .user-header {
        font-size: 18px;
        font-weight: bold;
        margin-bottom: 12px;
        color: var(--primary-color);
      }
      .metrics-grid {
        display: grid;
        grid-template-columns: repeat(auto-fill, minmax(150px, 1fr));
        gap: 16px;
      }
      .metric-card {
        background-color: var(--card-background-color);
        border-radius: 8px;
        padding: 16px;
        box-shadow: 0 2px 4px rgba(0,0,0,0.1);
        display: flex;
        flex-direction: column;
        align-items: center;
        justify-content: center;
      }
      .metric-icon {
        font-size: 28px;
        margin-bottom: 8px;
        color: var(--primary-color);
      }
      .metric-value {
        font-size: 22px;
        font-weight: bold;
      }
      .metric-name {
        font-size: 14px;
        color: var(--secondary-text-color);
        text-align: center;
      }
      .metric-unit {
        font-size: 12px;
        color: var(--secondary-text-color);
      }
      .placeholder {
        font-style: italic;
        color: var(--disabled-text-color);
        text-align: center;
        padding: 24px;
      }
    ".

(** The children of the shadow root: the container and the style
    element, both appended by the first [hass] assignment. *)
Definition shadowRoot (w : t) : list node :=
  match content w with
  | None => []
  | Some children => [Div "card-content" children; Style style_text]
  end.

(** [setConfig(config)].  The body is strict-mode code: reading [title]
    from [null] or [undefined] throws, and so does the assignment to a
    property of any other primitive, whose [title] reads as
    [undefined].  On an object with a falsy title the assignment throws
    when the object does not accept it (a read-only [title], or no
    [title] on an object that is not extensible, as after
    [Object.freeze]); [this.config] is then not assigned. *)
Definition setConfig (cfg : jsval) (σ : heap) (w : t) : heap * t * outcome :=
  match cfg with
  | VPrim _ => (σ, w, Throw TypeError)
  | VRef l =>
      let o := cell σ l in
      let w' := {| _hass := _hass w; config := Some l; content := content w |} in
      if prim_truthy (get_title (fields o)) then (σ, w', Normal)
      else if accepts "title" o then
        (<[l := {| fields := own_set "title" (PStr "Health Bridge") (fields o);
                   extensible := extensible o;
                   readonly := readonly o |}]> σ, w', Normal)
      else (σ, w, Throw TypeError)
  end.

(** [getStubConfig()] and [getCardSize()]. *)
Definition getStubConfig : JsObject.t prim := [("title", PStr "Health Bridge")].
Definition getCardSize : N := 3.

Definition placeholder : node :=
  TextDiv "placeholder"
    "No health data available. Set up Health Bridge integration and start receiving data.".

(** The two filters of [updateCard] on an entity id. *)
Definition sensor_id (entity_id : string) : bool :=
  startsWith "sensor." entity_id && includes "_" entity_id.

Definition named_with_paren (h : Hass) (entity_id : string) : bool :=
  match own_get entity_id (states h) with
  | Some (Some st) =>
      match attributes st with
      | Some a =>
          match friendly_name a with
          | Some fn => truthy fn && includes "(" fn
          | None => false
          end
      | None => false
      end
  | _ => false
  end.

Definition healthBridgeEntities (h : Hass) : list string :=
  filter (λ e, named_with_paren h e)
    (filter (λ e, sensor_id e) (own_keys (states h))).

(** [this._hass.states[entity_id]] followed by the reads
    [state.attributes.friendly_name]; [None] where the JavaScript would
    throw on a missing link. *)
Definition entity (h : Hass) (entity_id : string)
  : option (EntityState * Attributes * string) :=
  st ← mjoin (own_get entity_id (states h));
  a ← attributes st;
  fn ← friendly_name a;
  Some (st, a, fn).

(** The callback of the grouping loop.  [userEntityMap] is a plain
    object: when it has no own property [userId] but inherits one, the
    test [!userEntityMap[userId]] is false and the call of [push] on the
    inherited value throws. *)
Definition group_entity (h : Hass) (entity_id : string)
    (userEntityMap : JsObject.t (list string))
  : JsObject.t (list string) * outcome :=
  match entity h entity_id with
  | None => (userEntityMap, Throw TypeError)
  | Some (_, _, friendlyName) =>
      match match_user friendlyName with
      | Some userId =>
          if truthy userId then
            match own_get userId userEntityMap with
            | Some ids =>
                (own_set userId (ids ++ [entity_id]) userEntityMap, Normal)
            | None =>
                if inherited userId then (userEntityMap, Throw TypeError)
                else (own_set userId [entity_id] userEntityMap, Normal)
            end
          else (userEntityMap, Normal)
      | None => (userEntityMap, Normal)
      end
  end.

Definition group_by_user (h : Hass) (ids : list string)
  : JsObject.t (list string) * outcome :=
  forEach (group_entity h) ids [].

(** One metric card. *)
Definition metric_card (st : EntityState) (a : Attributes) (friendlyName : string)
  : node :=
  let value := state st in
  let unit := default "" (unit_of_measurement a) in
  let icon :=
    match icon a with
    | Some i => if truthy i then i else "mdi:help-circle"
    | None => "mdi:help-circle"
    end in
  let metricName := strip_user friendlyName in
  Div "metric-card"
    ([ HtmlDiv "metric-icon"
         ("<ha-icon icon=" +:+ dquote +:+ icon +:+ dquote +:+ "></ha-icon>");
       TextDiv "metric-value" value;
       TextDiv "metric-name" metricName ]
     ++ (if truthy unit then [TextDiv "metric-unit" unit] else [])).

(** The callback of the inner loop: appends a card to the grid. *)
Definition add_card (h : Hass) (entity_id : string) (grid : list node)
  : list node * outcome :=
  match entity h entity_id with
  | None => (grid, Throw TypeError)
  | Some (st, a, fn) => (grid ++ [metric_card st a fn], Normal)
  end.

Definition user_section (userId : string) (grid : list node) : node :=
  Div "user-section"
    [ TextDiv "user-header" ("User: " +:+ userId); Div "metrics-grid" grid ].

(** The callback of the outer loop: the section joins the content only
    once its grid is complete. *)
Definition add_section (h : Hass) (userEntityMap : JsObject.t (list string))
    (userId : string) (children : list node) : list node * outcome :=
  match own_get userId userEntityMap with
  | None => (children, Throw TypeError)
  | Some ids =>
      match forEach (add_card h) ids [] with
      | (grid, Normal) => (children ++ [user_section userId grid], Normal)
      | (_, Throw e) => (children, Throw e)
      end
  end.

Definition header (σ : heap) (cfg : loc) : node :=
  TextDiv "header" (prim_text (get_title (deref σ cfg))).

(** The drawing part of [updateCard], from the cleared container to its
    children at the end. *)
Definition draw (σ : heap) (cfg : loc) (h : Hass) : list node * outcome :=
  let children := [header σ cfg] in
  let ids := healthBridgeEntities h in
  match ids with
  | [] => (children ++ [placeholder], Normal)
  | _ :: _ =>
      match group_by_user h ids with
      | (_, Throw e) => (children, Throw e)
      | (userEntityMap, Normal) =>
          forEach (add_section h userEntityMap) (own_keys userEntityMap) children
      end
  end.

(** [updateCard()]. *)
Definition updateCard (σ : heap) (w : t) : t * outcome :=
  match _hass w, config w with
  | Some h, Some cfg =>
      match content w with
      | None => (w, Throw TypeError)
      | Some _ =>
          let '(children, r) := draw σ cfg h in
          ({| _hass := _hass w; config := config w; content := Some children |}, r)
      end
  | _, _ => (w, Normal)
  end.

(** [set hass(hass)]: the entry point the host calls on every change. *)
Definition set_hass (σ : heap) (h : Hass) (w : t) : t * outcome :=
  let w1 := {| _hass := Some h; config := config w; content := content w |} in
  let w2 :=
    match content w1 with
    | None => {| _hass := _hass w1; config := config w1; content := Some [] |}
    | Some _ => w1
    end in
  updateCard σ w2.

End HealthBridgeCard.

(** * Vocabulary of the properties *)

Module Spec.
Import JsString JsObject HealthBridgeCard.

(** A friendly name has a user suffix when it ends in an opening
    parenthesis, a non-empty run free of closing parentheses, and a
    closing parenthesis. *)
Definition has_user_suffix (s : string) : Prop :=
  ∃ pre u, s = pre +:+ "(" +:+ u +:+ ")" ∧ includes ")" u = false ∧ u ≠ "".

(** No opening parenthesis of [s] is left without a closing one after
    it. *)
Definition parens_closed (s : string) : Prop :=
  ∀ pre post, s = pre +:+ "(" +:+ post → includes ")" post = true.

(** The user an entity is grouped under: the capture of its friendly
    name. *)
Definition key_of (h : Hass) (entity_id : string) : option string :=
  '(_, _, fn) ← entity h entity_id; match_user fn.

(** The list of first occurrences: each element once, in the order in
    which it first appears. *)
Fixpoint first_seen (l : list string) : list string :=
  match l with
  | [] => []
  | x :: l' => x :: filter (λ y, y ≠ x) (first_seen l')
  end.

(** The table after the entities [done]: users in first-seen order, each
    with its entities in the order of [done]. *)
Definition grouped (h : Hass) (done : list string)
    (m : JsObject.t (list string)) : Prop :=
  m.*1 = first_seen (omap (key_of h) done) ∧
  ∀ k, k ∈ m.*1 →
    own_get k m = Some (filter (λ e, key_of h e = Some k) done).

(** The card of an entity, and the cards of a list of entities. *)
Definition card_of (h : Hass) (entity_id : string) : option node :=
  '(st, a, fn) ← entity h entity_id; Some (metric_card st a fn).

Definition cards (h : Hass) (ids : list string) : list node :=
  omap (card_of h) ids.

(** The section of one user of a grouping table. *)
Definition section_of (h : Hass) (userEntityMap : JsObject.t (list string))
    (userId : string) : node :=
  user_section userId (cards h (default [] (own_get userId userEntityMap))).

(** The user sections among the children of the container. *)
Definition is_user_section (n : node) : bool :=
  match n with
  | Div c _ => bool_decide (c = "user-section")
  | _ => false
  end.

Definition user_sections (children : list node) : list node :=
  filter (λ n, is_user_section n) children.

(** The state table without the entry of one entity. *)
Definition without (entity_id : string) (h : Hass) : Hass :=
  {| states := own_delete entity_id (states h) |}.

(** The friendly name of the entity, if it has one, has no user suffix. *)
Definition lacks_user_suffix (h : Hass) (entity_id : string) : Prop :=
  ∀ st a fn,
    own_get entity_id (states h) = Some (Some st) →
    attributes st = Some a →
    friendly_name a = Some fn →
    ¬ has_user_suffix fn.

(** The card after a sequence of state updates, exceptions included. *)
Definition updates (σ : heap) (hs : list Hass) (w : t) : t :=
  foldl (λ w h, (set_hass σ h w).1) w hs.

(** An entry of the state table with all three attributes given. *)
Definition sensor (fn value : string) (unit icon : option string)
  : option EntityState :=
  Some {| state := value;
          attributes := Some {| friendly_name := Some fn;
                                unit_of_measurement := unit;
                                icon := icon |} |}.

End Spec.

(** * Sample inputs *)

Module Sample.
Import JsString JsObject HealthBridgeCard Spec.

(** A store whose object [1] is the empty configuration [{}], and the
    card configured with it. *)
Definition empty_config : heap := {[ 1%positive := plain [] ]}.

Definition titled_config : heap :=
  {[ 1%positive := plain [("title", PStr "Health Bridge")] ]}.

Definition custom_config : heap :=
  {[ 1%positive :=
       plain [("title", PStr "Our Health"); ("type", PStr "custom:health-bridge-card")] ]}.

(** The configuration [Object.freeze({type: ...})], without title, and a
    frozen one with a title. *)
Definition frozen_config : heap :=
  {[ 1%positive := frozen [("type", PStr "custom:health-bridge-card")] ]}.

Definition frozen_titled_config : heap :=
  {[ 1%positive :=
       frozen [("type", PStr "custom:health-bridge-card"); ("title", PStr "Our Health")] ]}.

(** Two sensors of [alice] and of a user called like an inherited
    property, without icons. *)
Definition alice_and_toString : Hass :=
  {| states :=
       [ ("sensor.health_steps_a", sensor "Steps (alice)" "1" None None);
         ("sensor.health_steps_b", sensor "Steps (toString)" "2" None None) ] |}.

(** The first of them alone. *)
Definition alice_alone : Hass :=
  {| states := [ ("sensor.health_steps_a", sensor "Steps (alice)" "1" None None) ] |}.

Definition configured : HealthBridgeCard.t :=
  {| _hass := None; config := Some 1%positive; content := None |}.

Definition default_icon_html : string :=
  "<ha-icon icon=" +:+ dquote +:+ "mdi:help-circle" +:+ dquote +:+ "></ha-icon>".

(** The table of the specification's examples. *)
Definition alice_and_bob : Hass :=
  {| states :=
       [ ("sensor.health_steps_alice", sensor "Steps (alice)" "1200" (Some "count") None);
         ("light.kitchen", sensor "Kitchen" "on" None None);
         ("sensor.health_steps_bob", sensor "Steps (bob)" "900" (Some "count") None);
         ("sensor.health_heart_rate_alice",
            sensor "Heart Rate (alice)" "61" None (Some "mdi:heart"));
         ("sensor.outdoor_temperature", sensor "Steps" "7" (Some "C") None) ] |}.

(** A friendly name that passes the filter and has no user suffix. *)
Definition open_paren : Hass :=
  {| states := [ ("sensor.health_steps", sensor "Steps (" "1200" (Some "count") None) ] |}.

(** A metric name that leaves a parenthesis open. *)
Definition nested_paren : Hass :=
  {| states :=
       [ ("sensor.health_hr", sensor "Heart Rate (avg (alice)" "61" (Some "bpm") None) ] |}.

(** A user called like a property every object inherits. *)
Definition inherited_user : Hass :=
  {| states :=
       [ ("sensor.health_steps", sensor "Steps (constructor)" "1200" (Some "count") None) ] |}.

(** Users whose names are array indices. *)
Definition numbered_users : Hass :=
  {| states :=
       [ ("sensor.health_steps_b", sensor "Steps (2)" "1200" (Some "count") None);
         ("sensor.health_steps_a", sensor "Steps (1)" "900" (Some "count") None) ] |}.

(** A name ending in [()] after an open parenthesis. *)
Definition empty_after_open : Hass :=
  {| states := [ ("sensor.health_steps", sensor "Steps (a()" "1200" None None) ] |}.

(** A name ending in [()]. *)
Definition empty_user : Hass :=
  {| states := [ ("sensor.health_steps", sensor "Steps ()" "1200" None None) ] |}.

(** The text of the user headers among the children. *)
Definition user_headers (children : list node) : list string :=
  omap (λ n, match n with
             | Div _ (TextDiv _ s :: _) => Some s
             | _ => None
             end) (user_sections children).

End Sample.

(** * The element with its shadow tree, and the registration *)

(** The custom element as the browser holds it: the fields of the card
    and the children of the shadow root attached by the constructor.  The
    container is one object, referred to by [this.content] and by the
    shadow root; its children are the [content] of the card. *)
Module Element.
Import JsString JsObject HealthBridgeCard.

Inductive shadow_child : Type :=
| Container
| StyleElement (textContent : string).

Record t : Type := {
  card : HealthBridgeCard.t;
  shadowChildren : list shadow_child
}.

(** [constructor]: [attachShadow] gives an empty shadow root. *)
Definition construct : t := {| card := new; shadowChildren := [] |}.

(** [setupStyleElement()]. *)
Definition setupStyleElement (el : t) : t :=
  {| card := card el;
     shadowChildren := shadowChildren el ++ [StyleElement style_text] |}.

(** [set hass(hass)] with the shadow root written out. *)
Definition set_hass (σ : heap) (h : Hass) (el : t) : t * outcome :=
  let w1 := {| _hass := Some h; config := config (card el);
               content := content (card el) |} in
  let el1 :=
    match content w1 with
    | None =>
        setupStyleElement
          {| card := {| _hass := _hass w1; config := config w1; content := Some [] |};
             shadowChildren := shadowChildren el ++ [Container] |}
    | Some _ => {| card := w1; shadowChildren := shadowChildren el |}
    end in
  let '(w2, r) := updateCard σ (card el1) in
  ({| card := w2; shadowChildren := shadowChildren el1 |}, r).

(** [setConfig(config)] does not touch the shadow root. *)
Definition setConfig (cfg : jsval) (σ : heap) (el : t) : heap * t * outcome :=
  let '(σ', w', r) := HealthBridgeCard.setConfig cfg σ (card el) in
  (σ', {| card := w'; shadowChildren := shadowChildren el |}, r).

(** What the host does with the element. *)
Inductive call : Type :=
| SetConfig (cfg : jsval)
| SetHass (h : Hass).

(** One call; an exception leaves the state the call had reached. *)
Definition step (c : call) (s : heap * t) : heap * t :=
  match c with
  | SetConfig cfg => (setConfig cfg s.1 s.2).1
  | SetHass h => (s.1, (set_hass s.1 h s.2).1)
  end.

Definition run (cs : list call) (s : heap * t) : heap * t :=
  foldl (λ s c, step c s) s cs.

(** The same call on the fields alone. *)
Definition step_card (c : call) (s : heap * HealthBridgeCard.t)
  : heap * HealthBridgeCard.t :=
  match c with
  | SetConfig cfg => (HealthBridgeCard.setConfig cfg s.1 s.2).1
  | SetHass h => (s.1, (HealthBridgeCard.set_hass s.1 h s.2).1)
  end.

(** The shadow tree as nodes. *)
Definition tree (el : t) : list node :=
  (λ c, match c with
        | Container => Div "card-content" (default [] (content (card el)))
        | StyleElement s => Style s
        end) <$> shadowChildren el.

End Element.

(** The statements at the end of the file: the element is defined under
    its tag and its description joins [window.customCards]. *)
Module Registration.

Record CardInfo : Type := {
  type : string;
  name : string;
  description : string
}.

(** The part of [window] the script touches: the tags defined in
    [customElements] and [window.customCards], [None] while it is
    [undefined]. *)
Record Window : Type := {
  customElements : list string;
  customCards : option (list CardInfo)
}.

Inductive completion : Type :=
| Loaded
| NotSupportedError.

Definition tag : string := "health-bridge-card".

Definition info : CardInfo :=
  {| type := "health-bridge-card";
     name := "Health Bridge Card";
     description := "A card that displays health metrics from Health Bridge integration" |}.

(** The three statements.  [customElements.define] throws a
    [NotSupportedError] for a tag that is defined already, and the
    statements after it do not run. *)
Definition load (w : Window) : Window * completion :=
  if bool_decide (tag ∈ customElements w) then (w, NotSupportedError)
  else
    ({| customElements := customElements w ++ [tag];
        customCards := Some (default [] (customCards w) ++ [info]) |}, Loaded).

(** The script evaluated [n] times. *)
Fixpoint loads (n : nat) (w : Window) : Window :=
  match n with
  | O => w
  | S n' => loads n' (load w).1
  end.

End Registration.

(** * More vocabulary *)

Module Spec2.
Import JsString JsObject HealthBridgeCard Spec.

(** The cards in the grid of a user section. *)
Definition section_cards (n : node) : list node :=
  match n with
  | Div _ [_; Div _ grid] => grid
  | _ => []
  end.

(** A friendly name ends in a space and a user in parentheses. *)
Definition has_spaced_suffix (s : string) : Prop :=
  ∃ pre v, s = pre +:+ " (" +:+ v +:+ ")" ∧ v ≠ "" ∧ includes ")" v = false.

(** [parens_closed], computed. *)
Fixpoint parens_closedb (s : string) : bool :=
  match s with
  | EmptyString => true
  | String a s' =>
      (if Ascii.eqb a "(" then includes ")" s' else true) && parens_closedb s'
  end.

(** The last character of the string is a space. *)
Fixpoint ends_with_space (s : string) : bool :=
  match s with
  | EmptyString => false
  | String a EmptyString => Ascii.eqb a " "
  | String _ s' => ends_with_space s'
  end.

(** The entities of a grouping table, read in the order of its keys. *)
Definition grouped_ids (m : JsObject.t (list string)) : list string :=
  own_keys m ≫= λ k, default [] (own_get k m).

(** The element and the fields agree, and the shadow root is empty until
    the container exists and holds the container and one style element
    from then on. *)
Definition element_agrees (s : heap * Element.t) (s' : heap * HealthBridgeCard.t)
  : Prop :=
  s.1 = s'.1 ∧ Element.card s.2 = s'.2 ∧
  Element.shadowChildren s.2 =
    match content s'.2 with
    | None => []
    | Some _ => [Element.Container; Element.StyleElement style_text]
    end.

End Spec2.

(** * Properties *)

(** ** The regular expressions *)

Section Strings.
Import JsString Spec.

Lemma append_nil (s : string) : "" +:+ s = s.
Proof. reflexivity. Qed.

Lemma append_cons (a : ascii) (s t : string) : String a s +:+ t = String a (s +:+ t).
Proof. reflexivity. Qed.

Lemma append_nil_r (s : string) : s +:+ "" = s.
Proof. induction s as [|a s IH]; [done|]. by rewrite append_cons, IH. Qed.

Lemma append_assoc (s t u : string) : (s +:+ t) +:+ u = s +:+ t +:+ u.
Proof. induction s as [|a s IH]; [done|]. by rewrite !append_cons, IH. Qed.

Lemma includes_append (c : ascii) (s t : string) :
  includes c (s +:+ t) = includes c s || includes c t.
Proof.
  induction s as [|a s IH]; [done|].
  rewrite append_cons. simpl. by destruct (Ascii.eqb a c).
Qed.

Lemma eqb_close (a : ascii) : Ascii.eqb a ")" = includes ")" (String a "").
Proof. simpl. by destruct (Ascii.eqb a ")"). Qed.

(** [run_to_close] recognises exactly [u)] with no closing parenthesis in
    [u]. *)
Lemma run_to_close_Some (s u : string) :
  run_to_close s = Some u ↔ s = u +:+ ")" ∧ includes ")" u = false.
Proof.
  revert u. induction s as [|a s IH]; intros u; simpl.
  { split; [done|]. intros [E _]. by destruct u. }
  destruct (Ascii.eqb_spec a ")") as [->|Hne].
  - destruct s as [|b s].
    + split.
      * intros [= <-]. done.
      * intros [E Hu]. destruct u as [|c u]; [done|].
        rewrite append_cons in E. injection E as <- E. by destruct u.
    + split; [done|]. intros [E Hu]. destruct u as [|c u]; [done|].
      rewrite append_cons in E. injection E as <- E. simpl in Hu. done.
  - split.
    + intros H. destruct (run_to_close s) as [v|] eqn:Hv; [|done].
      injection H as <-. destruct (proj1 (IH v) eq_refl) as [-> Hv']. split; [done|].
      simpl. by rewrite (proj2 (Ascii.eqb_neq _ _) Hne).
    + intros [E Hu]. destruct u as [|c u].
      * rewrite append_nil in E. by injection E as -> _.
      * rewrite append_cons in E. injection E as <- ->.
        simpl in Hu. rewrite (proj2 (Ascii.eqb_neq _ _) Hne) in Hu.
        by rewrite (proj2 (IH u) (conj eq_refl Hu)).
Qed.

Lemma group_to_close_Some (s u : string) :
  group_to_close s = Some u ↔ s = u +:+ ")" ∧ includes ")" u = false ∧ u ≠ "".
Proof.
  unfold group_to_close. split.
  - destruct (run_to_close s) as [[|a v]|] eqn:H; [done| |done].
    intros [= <-]. apply run_to_close_Some in H as [-> H]. done.
  - intros (E & Hu & Hne). rewrite (proj2 (run_to_close_Some s u) (conj E Hu)).
    by destruct u.
Qed.

Lemma match_user_Some (s u : string) :
  match_user s = Some u →
  u ≠ "" ∧ includes ")" u = false ∧ ∃ pre, s = pre +:+ "(" +:+ u +:+ ")".
Proof.
  induction s as [|a s IH]; [done|]. simpl.
  destruct (Ascii.eqb_spec a "(") as [->|Hne].
  - destruct (group_to_close s) as [v|] eqn:Hv.
    + intros [= <-]. apply group_to_close_Some in Hv as (-> & Hv & Hne).
      split_and!; [done..|]. by exists "".
    + intros H. destruct (IH H) as (? & ? & pre & ->).
      split_and!; [done..|]. by exists (String "(" pre).
  - intros H. destruct (IH H) as (? & ? & pre & ->).
    split_and!; [done..|]. by exists (String a pre).
Qed.

Lemma match_user_is_Some (s : string) :
  is_Some (match_user s) ↔ has_user_suffix s.
Proof.
  split.
  - intros [u Hu]. apply match_user_Some in Hu as (? & ? & pre & ->).
    by exists pre, u.
  - intros (pre & u & -> & Hu & Hne).
    induction pre as [|a pre IH].
    + rewrite append_nil. change ("(" +:+ u +:+ ")") with (String "(" (u +:+ ")")).
      simpl. rewrite (proj2 (group_to_close_Some _ u)); [by eexists|done].
    + rewrite append_cons. simpl.
      destruct (Ascii.eqb a "("); [|done].
      by destruct (group_to_close _).
Qed.

Lemma match_user_None (s : string) :
  match_user s = None ↔ ¬ has_user_suffix s.
Proof.
  rewrite <-match_user_is_Some, <-eq_None_not_Some. done.
Qed.

Lemma parens_closed_tail (a : ascii) (s : string) :
  parens_closed (String a s) → parens_closed s.
Proof. intros H pre post ->. apply (H (String a pre) post). done. Qed.

Lemma parens_closed_no_open (s : string) : includes "(" s = false → parens_closed s.
Proof.
  intros Hs pre post ->. exfalso.
  rewrite !includes_append in Hs. simpl in Hs. by rewrite orb_true_r in Hs.
Qed.

Lemma group_to_close_closed (s t : string) :
  includes ")" s = true → t ≠ "" → group_to_close (s +:+ t) = None.
Proof.
  intros Hs Ht. destruct (group_to_close (s +:+ t)) as [u|] eqn:Hu; [|done].
  exfalso. apply group_to_close_Some in Hu as (E & Hu & _).
  revert u E Hu. induction s as [|a s IH]; intros u E Hu; [done|].
  rewrite append_cons in E. destruct u as [|b u].
  - rewrite append_nil in E. injection E as -> E.
    destruct s; [by destruct t|done].
  - rewrite append_cons in E. injection E as <- E. simpl in Hs, Hu.
    destruct (Ascii.eqb a ")"); [done|]. eauto.
Qed.

(** The convention ["<name> (<user>)"]: the capture is the user as long
    as the name leaves no parenthesis open. *)
Lemma match_user_convention (name u : string) :
  parens_closed name → u ≠ "" → includes ")" u = false →
  match_user (name +:+ " (" +:+ u +:+ ")") = Some u.
Proof.
  intros Hc Hne Hu. induction name as [|a name IH].
  - rewrite append_nil. change (" (" +:+ u +:+ ")") with (String " " (String "(" (u +:+ ")"))).
    simpl. by rewrite (proj2 (group_to_close_Some _ u)).
  - rewrite append_cons. simpl.
    destruct (Ascii.eqb_spec a "(") as [->|_].
    + rewrite group_to_close_closed; [|by apply (Hc "" name)|done].
      apply IH. by eapply parens_closed_tail.
    + apply IH. by eapply parens_closed_tail.
Qed.

Lemma strip_user_convention (name u : string) :
  parens_closed name → u ≠ "" → includes ")" u = false →
  strip_user (name +:+ " (" +:+ u +:+ ")") = name.
Proof.
  intros Hc Hne Hu. induction name as [|a name IH].
  - rewrite append_nil. change (" (" +:+ u +:+ ")") with (String " " (String "(" (u +:+ ")"))).
    simpl. rewrite (proj2 (group_to_close_Some _ u)); [|done].
    rewrite bool_decide_eq_true_2; [done|by eexists].
  - rewrite append_cons. simpl.
    rewrite IH by (by eapply parens_closed_tail). 
    destruct (Ascii.eqb a " "); [|done]. simpl.
    destruct name as [|b name].
    + rewrite append_nil. change (" (" +:+ u +:+ ")") with (String " " (String "(" (u +:+ ")"))).
      done.
    + rewrite append_cons. destruct (Ascii.eqb_spec b "(") as [->|_]; [|done].
      rewrite group_to_close_closed; [done| |done].
      apply (Hc (String a "") name). done.
Qed.

(** A name ending in [()] gives no capture exactly when nothing before it
    is left open. *)
Lemma match_user_empty_group (name : string) :
  match_user (name +:+ "()") = None ↔ parens_closed name.
Proof.
  split.
  - intros H pre post ->. 
    destruct (includes ")" post) eqn:Hp; [done|]. exfalso.
    apply match_user_None in H. apply H.
    exists pre, (post +:+ "("). split_and!.
    + by rewrite !append_assoc.
    + rewrite includes_append, Hp. done.
    + by destruct post.
  - intros Hc. induction name as [|a name IH]; [done|].
    rewrite append_cons. simpl.
    destruct (Ascii.eqb_spec a "(") as [->|_].
    + rewrite group_to_close_closed; [|by apply (Hc "" name)|done].
      apply IH. by eapply parens_closed_tail.
    + apply IH. by eapply parens_closed_tail.
Qed.

End Strings.

(** ** Plain objects and loops *)

Section Objects.
Import JsString JsObject.
Context {A : Type}.
Implicit Types (o : JsObject.t A) (k : string) (v : A).

Lemma own_get_Some_keys k o v : own_get k o = Some v → k ∈ o.*1.
Proof.
  induction o as [|[k' v'] o IH]; [done|]. simpl.
  case_decide as E; [subst; intros _; left|intros H; right; auto].
Qed.

Lemma own_get_None k o : own_get k o = None ↔ k ∉ o.*1.
Proof.
  induction o as [|[k' v'] o IH]; simpl.
  - split; [intros _; apply not_elem_of_nil|done].
  - rewrite not_elem_of_cons. case_decide as E; subst.
    + split; [done|]. by intros [? _].
    + rewrite IH. naive_solver.
Qed.

Lemma own_get_is_Some k o : k ∈ o.*1 → is_Some (own_get k o).
Proof.
  intros H. destruct (own_get k o) eqn:E; [by eexists|].
  by apply own_get_None in E.
Qed.

Lemma own_get_set_eq k v o : own_get k (own_set k v o) = Some v.
Proof.
  induction o as [|[k' v'] o IH]; simpl.
  - by rewrite decide_True.
  - case_decide; simpl; [by rewrite decide_True|by rewrite decide_False].
Qed.

Lemma own_get_set_ne k k' v o : k ≠ k' → own_get k' (own_set k v o) = own_get k' o.
Proof.
  intros Hne. induction o as [|[k0 v0] o IH]; simpl.
  - by rewrite decide_False.
  - case_decide as E; simpl.
    + subst. by rewrite !decide_False.
    + case_decide; [done|apply IH].
Qed.

Lemma own_set_keys_old k v o : k ∈ o.*1 → (own_set k v o).*1 = o.*1.
Proof.
  induction o as [|[k' v'] o IH]; simpl; [by intros ?%elem_of_nil|].
  intros H. case_decide as E; simpl; [by subst|].
  f_equal. apply IH. apply elem_of_cons in H as [?|?]; [congruence|done].
Qed.

Lemma own_set_keys_new k v o : k ∉ o.*1 → (own_set k v o).*1 = o.*1 ++ [k].
Proof.
  induction o as [|[k' v'] o IH]; simpl; [done|].
  intros [? ?]%not_elem_of_cons. rewrite decide_False by done. simpl.
  f_equal. by apply IH.
Qed.

Lemma own_delete_keys k o : (own_delete k o).*1 = filter (λ k', k' ≠ k) o.*1.
Proof.
  unfold own_delete. induction o as [|[k' v'] o IH]; [done|].
  rewrite filter_cons, fmap_cons, filter_cons. simpl.
  case_decide; [rewrite fmap_cons|]; by rewrite IH.
Qed.

Lemma own_get_delete_ne k k' o : k ≠ k' → own_get k' (own_delete k o) = own_get k' o.
Proof.
  intros Hne. unfold own_delete. induction o as [|[k0 v0] o IH]; [done|].
  destruct (decide (k0 = k)) as [->|E].
  - rewrite filter_cons_False by (simpl; auto). simpl. by rewrite decide_False.
  - rewrite filter_cons_True by done. simpl. case_decide; [done|apply IH].
Qed.

End Objects.

Section Keys.
Import JsString JsObject.

Lemma elem_of_insert_index p n k l :
  p ∈ insert_index n k l ↔ p = (n, k) ∨ p ∈ l.
Proof.
  induction l as [|[m k'] l IH]; simpl.
  - rewrite list_elem_of_singleton. set_solver.
  - destruct (n <=? m); [set_solver|].
    rewrite !elem_of_cons, IH. naive_solver.
Qed.

Lemma elem_of_index_keys n k ks :
  (n, k) ∈ index_keys ks ↔ k ∈ ks ∧ array_index k = Some n.
Proof.
  induction ks as [|k' ks IH]; simpl.
  - split; [by intros ?%elem_of_nil|by intros [?%elem_of_nil _]].
  - destruct (array_index k') as [n'|] eqn:E.
    + rewrite elem_of_insert_index, IH, elem_of_cons. naive_solver.
    + rewrite IH, elem_of_cons. naive_solver.
Qed.

Lemma insert_index_sorted n k l :
  StronglySorted N.le l.*1 → StronglySorted N.le (insert_index n k l).*1.
Proof.
  induction l as [|[m k'] l IH]; simpl; intros Hs.
  - repeat constructor.
  - destruct (N.leb_spec n m) as [Hle|Hlt].
    + rewrite fmap_cons. constructor; [done|]. simpl.
      apply StronglySorted_inv in Hs as [_ Hall].
      constructor; [done|]. eapply Forall_impl; [done|]. simpl. lia.
    + apply StronglySorted_inv in Hs as [Hs Hall].
      rewrite fmap_cons. simpl. constructor; [by apply IH|].
      apply Forall_forall. intros x [[x' kx] [-> Hx]]%list_elem_of_fmap.
      apply elem_of_insert_index in Hx as [[= -> ->]|Hx]; simpl; [lia|].
      rewrite Forall_forall in Hall. apply Hall.
      apply list_elem_of_fmap. by exists (x', kx).
Qed.

Lemma index_keys_sorted ks : StronglySorted N.le (index_keys ks).*1.
Proof.
  induction ks as [|k ks IH]; simpl; [constructor|].
  destruct (array_index k); [by apply insert_index_sorted|done].
Qed.

Lemma insert_index_perm n k l : insert_index n k l ≡ₚ (n, k) :: l.
Proof.
  induction l as [|[m k'] l IH]; simpl; [done|].
  destruct (n <=? m); [done|]. rewrite IH. apply Permutation_swap.
Qed.

Lemma index_keys_perm ks :
  (index_keys ks).*2 ≡ₚ filter (λ k, ¬ is_name k) ks.
Proof.
  induction ks as [|k ks IH]; simpl; [done|].
  destruct (array_index k) as [n|] eqn:E.
  - rewrite filter_cons_True by (unfold is_name; congruence).
    rewrite insert_index_perm, fmap_cons. simpl. by rewrite IH.
  - rewrite filter_cons_False; [done|]. by intros [].
Qed.

Lemma index_keys_values n k ks : (n, k) ∈ index_keys ks → array_index k = Some n.
Proof. by intros [_ ?]%elem_of_index_keys. Qed.

Lemma elem_of_own_keys {A} (o : JsObject.t A) k : k ∈ own_keys o ↔ k ∈ o.*1.
Proof.
  unfold own_keys. rewrite elem_of_app, list_elem_of_filter. split.
  - intros [[[n k'] [-> H]]%list_elem_of_fmap|[_ ?]]; [|done].
    by apply elem_of_index_keys in H as [? _].
  - intros H. destruct (array_index k) as [n|] eqn:E; [left|by right].
    apply list_elem_of_fmap. exists (n, k). split; [done|].
    by apply elem_of_index_keys.
Qed.

(** A filter that lets no array index through sees the names in creation
    order. *)
Lemma filter_own_keys {A} (P : string → Prop) `{!∀ k, Decision (P k)}
    (o : JsObject.t A) :
  (∀ k, P k → is_name k) → filter P (own_keys o) = filter P o.*1.
Proof.
  intros HP. unfold own_keys. rewrite filter_app.
  replace (filter P (index_keys o.*1).*2) with (@nil string).
  - simpl. rewrite list_filter_filter. apply list_filter_iff. naive_solver.
  - symmetry. apply elem_of_nil_inv. intros k [Hk Hin]%list_elem_of_filter.
    apply list_elem_of_fmap in Hin as [[n k'] [-> Hin]].
    apply index_keys_values in Hin. apply HP in Hk. unfold is_name in Hk.
    simpl in Hk. congruence.
Qed.

End Keys.

Section Loops.
Context {A S : Type}.
Implicit Types (f : A → S → S * outcome) (xs : list A) (s : S).

Lemma forEach_app f xs ys s :
  forEach f (xs ++ ys) s =
  match forEach f xs s with
  | (s', Normal) => forEach f ys s'
  | (s', Throw e) => (s', Throw e)
  end.
Proof.
  revert s. induction xs as [|x xs IH]; intros s; simpl; [done|].
  destruct (f x s) as [s' [|e]]; [apply IH|done].
Qed.

(** A property of the state kept by every call is kept by the loop,
    however it ends. *)
Lemma forEach_invariant (P : S → Prop) f xs s s' r :
  (∀ x t t' r', x ∈ xs → P t → f x t = (t', r') → P t') →
  P s → forEach f xs s = (s', r) → P s'.
Proof.
  revert s. induction xs as [|x xs IH]; intros s Hf Hs; simpl.
  - by intros [= <- _].
  - destruct (f x s) as [t [|e]] eqn:E.
    + apply IH; [|eapply Hf; [left|done..]].
      intros ?????. apply Hf. by right.
    + intros [= <- _]. eapply Hf; [left|done..].
Qed.

Lemma forEach_ext f g xs s :
  (∀ x t, x ∈ xs → f x t = g x t) → forEach f xs s = forEach g xs s.
Proof.
  revert s. induction xs as [|x xs IH]; intros s H; simpl; [done|].
  rewrite <-H by left. destruct (f x s) as [t [|e]]; [|done].
  apply IH. intros ???. apply H. by right.
Qed.

End Loops.

(** ** Filtering and grouping *)

Section Grouping.
Import JsString JsObject HealthBridgeCard Spec.
Implicit Types (h : Hass) (e k : string) (m : JsObject.t (list string)).

Lemma sensor_id_is_name e : sensor_id e → is_name e.
Proof.
  unfold sensor_id. intros [H _]%andb_prop_elim.
  destruct e as [|a e]; [done|].
  change (Is_true (Ascii.eqb "s" a && startsWith "ensor." e)) in H.
  destruct (Ascii.eqb_spec "s" a) as [<-|]; [|done]. reflexivity.
Qed.

Lemma healthBridgeEntities_creation_order h :
  healthBridgeEntities h =
  filter (λ e, named_with_paren h e) (filter (λ e, sensor_id e) (states h).*1).
Proof.
  unfold healthBridgeEntities. f_equal. apply filter_own_keys.
  intros k. apply sensor_id_is_name.
Qed.

Lemma elem_of_healthBridgeEntities h e :
  e ∈ healthBridgeEntities h ↔
  named_with_paren h e ∧ sensor_id e ∧ e ∈ (states h).*1.
Proof.
  unfold healthBridgeEntities.
  by rewrite !list_elem_of_filter, elem_of_own_keys.
Qed.

Lemma healthBridgeEntities_NoDup h :
  wf (states h) → NoDup (healthBridgeEntities h).
Proof.
  intros H. rewrite healthBridgeEntities_creation_order.
  by do 2 apply NoDup_filter.
Qed.

Lemma named_with_paren_entity h e :
  named_with_paren h e →
  ∃ st a fn, entity h e = Some (st, a, fn) ∧ includes "(" fn = true.
Proof.
  unfold named_with_paren, entity.
  destruct (own_get e (states h)) as [[st|]|]; [|done..].
  destruct (attributes st) as [a|] eqn:Ea; [|done].
  destruct (friendly_name a) as [fn|] eqn:Ef; [|done].
  intros [_ H]%andb_prop_elim. exists st, a, fn. simpl.
  rewrite Ea. simpl. rewrite Ef. simpl. split; [done|].
  by apply Is_true_eq_true.
Qed.

Lemma entity_Some h e st a fn :
  entity h e = Some (st, a, fn) ↔
  own_get e (states h) = Some (Some st) ∧ attributes st = Some a ∧
  friendly_name a = Some fn.
Proof.
  unfold entity.
  destruct (own_get e (states h)) as [[st'|]|]; simpl; [|naive_solver..].
  destruct (attributes st') as [a'|] eqn:Ea; simpl; [|naive_solver].
  destruct (friendly_name a') as [fn'|] eqn:Ef; simpl; naive_solver.
Qed.

Lemma key_of_Some h e k :
  key_of h e = Some k →
  ∃ st a fn, entity h e = Some (st, a, fn) ∧ match_user fn = Some k.
Proof.
  unfold key_of. destruct (entity h e) as [[[st a] fn]|]; [|done].
  simpl. eauto.
Qed.

Lemma key_of_entity h e st a fn :
  entity h e = Some (st, a, fn) → key_of h e = match_user fn.
Proof. unfold key_of. by intros ->. Qed.

Lemma key_of_lacks_suffix h e : lacks_user_suffix h e → key_of h e = None.
Proof.
  intros H. destruct (key_of h e) as [k|] eqn:E; [|done].
  apply key_of_Some in E as (st & a & fn & E & Hk).
  apply entity_Some in E as (? & ? & ?).
  assert (is_Some (match_user fn)) as Hs by eauto.
  apply match_user_is_Some in Hs. by destruct (H st a fn).
Qed.

(** The key of a grouped entity is a non-empty string. *)
Lemma key_of_truthy h e k : key_of h e = Some k → truthy k = true.
Proof.
  intros (st & a & fn & _ & H)%key_of_Some.
  apply match_user_Some in H as [H _]. by destruct k.
Qed.

(** One call of the grouping callback that returns normally. *)
Lemma group_entity_Normal h e m m' :
  group_entity h e m = (m', Normal) →
  match key_of h e with
  | Some k =>
      m' = own_set k (default [] (own_get k m) ++ [e]) m ∧
      (own_get k m = None → inherited k = false)
  | None => m' = m
  end.
Proof.
  unfold group_entity. destruct (entity h e) as [[[st a] fn]|] eqn:E; [|done].
  rewrite (key_of_entity _ _ _ _ _ E).
  destruct (match_user fn) as [k|] eqn:Ek; [|by intros [= <-]].
  assert (truthy k = true) as ->.
  { eapply key_of_truthy. by rewrite (key_of_entity _ _ _ _ _ E). }
  destruct (own_get k m) as [ids|]; simpl.
  - by intros [= <-].
  - destruct (inherited k); [done|]. by intros [= <-].
Qed.

(** An entity without a key leaves the table as it is. *)
Lemma group_entity_skip h e m :
  is_Some (entity h e) → key_of h e = None → group_entity h e m = (m, Normal).
Proof.
  intros [[[st a] fn] E] Hk. unfold group_entity. rewrite E.
  rewrite (key_of_entity _ _ _ _ _ E) in Hk. by rewrite Hk.
Qed.

Lemma group_entity_no_throw h e m :
  is_Some (entity h e) →
  (∀ k, key_of h e = Some k → inherited k = false) →
  ∃ m', group_entity h e m = (m', Normal).
Proof.
  intros [[[st a] fn] E] Hk. unfold group_entity. rewrite E.
  rewrite (key_of_entity _ _ _ _ _ E) in Hk.
  destruct (match_user fn) as [k|]; [|by eexists].
  destruct (truthy k); [|by eexists].
  destruct (own_get k m); [by eexists|].
  rewrite (Hk k eq_refl). by eexists.
Qed.

Lemma first_seen_elem_of (l : list string) x : x ∈ first_seen l ↔ x ∈ l.
Proof.
  induction l as [|y l IH]; simpl; [done|].
  rewrite !elem_of_cons, list_elem_of_filter, IH.
  destruct (decide (x = y)); naive_solver.
Qed.

Lemma first_seen_snoc (l : list string) x :
  first_seen (l ++ [x]) = if decide (x ∈ l) then first_seen l else first_seen l ++ [x].
Proof.
  induction l as [|y l IH]; simpl.
  - done.
  - rewrite IH. destruct (decide (x = y)) as [->|Hne].
    + destruct (decide (y ∈ y :: l)) as [_|[]]; [|left].
      case_decide; [done|]. rewrite filter_app, filter_cons_False by auto.
      by rewrite filter_nil, app_nil_r.
    + destruct (decide (x ∈ l)) as [Hin|Hin].
      * destruct (decide (x ∈ y :: l)) as [_|[]]; [done|by right].
      * destruct (decide (x ∈ y :: l)) as [[?|?]%elem_of_cons|_]; [done..|].
        rewrite filter_app, filter_cons_True by done. done.
Qed.

Lemma first_seen_NoDup (l : list string) : NoDup (first_seen l).
Proof.
  induction l as [|y l IH]; simpl; constructor.
  - rewrite list_elem_of_filter. naive_solver.
  - by apply NoDup_filter.
Qed.

Lemma grouped_nil h : grouped h [] [].
Proof. split; [done|]. by intros k ?%elem_of_nil. Qed.

Lemma elem_of_omap_key h (done : list string) k :
  k ∈ omap (key_of h) done ↔ ∃ e, e ∈ done ∧ key_of h e = Some k.
Proof. apply list_elem_of_omap. Qed.

Lemma filter_key_nil h (done : list string) k :
  k ∉ omap (key_of h) done → filter (λ e, key_of h e = Some k) done = [].
Proof.
  intros H. apply elem_of_nil_inv. intros e [? ?]%list_elem_of_filter.
  apply H, elem_of_omap_key. eauto.
Qed.

Lemma grouped_step h done e m m' :
  grouped h done m → group_entity h e m = (m', Normal) →
  grouped h (done ++ [e]) m'.
Proof.
  intros [Hk Hg] H%group_entity_Normal.
  unfold grouped. rewrite omap_app. simpl.
  destruct (key_of h e) as [k|] eqn:Ek; simpl.
  - destruct H as [-> Hinh]. rewrite first_seen_snoc.
    destruct (decide (k ∈ omap (key_of h) done)) as [Hin|Hin].
    + assert (k ∈ m.*1) as Hm by (by rewrite Hk, first_seen_elem_of).
      rewrite own_set_keys_old by done. split; [done|]. intros k' Hk'.
      rewrite filter_app. destruct (decide (k = k')) as [<-|Hne].
      * rewrite own_get_set_eq, (Hg k Hm). simpl.
        by rewrite filter_cons_True, filter_nil.
      * rewrite own_get_set_ne, (Hg k' Hk') by done.
        rewrite filter_cons_False by congruence. by rewrite filter_nil, app_nil_r.
    + assert (k ∉ m.*1) as Hm by (by rewrite Hk, first_seen_elem_of).
      rewrite own_set_keys_new by done. split; [by rewrite Hk|].
      intros k' Hk'. rewrite filter_app. destruct (decide (k = k')) as [<-|Hne].
      * rewrite own_get_set_eq. apply own_get_None in Hm. rewrite Hm. simpl.
        rewrite filter_key_nil by done. by rewrite filter_cons_True, filter_nil.
      * rewrite own_get_set_ne by done.
        apply elem_of_app in Hk' as [Hk'|Hk'%list_elem_of_singleton]; [|done].
        rewrite (Hg k' Hk'), filter_cons_False by congruence.
        by rewrite filter_nil, app_nil_r.
  - subst m'. rewrite app_nil_r. split; [done|]. intros k Hk'.
    rewrite filter_app, (Hg k Hk'), filter_cons_False by congruence.
    by rewrite filter_nil, app_nil_r.
Qed.

Lemma group_by_user_grouped h ids m :
  group_by_user h ids = (m, Normal) → grouped h ids m.
Proof.
  unfold group_by_user. revert m.
  induction ids as [|e ids IH] using rev_ind; intros m.
  - intros [= <-]. apply grouped_nil.
  - rewrite forEach_app.
    destruct (forEach (group_entity h) ids []) as [m1 [|err]]; [|done].
    simpl. destruct (group_entity h e m1) as [m2 [|err]] eqn:E; [|done].
    intros [= <-]. eapply grouped_step; [|done]. by apply IH.
Qed.

(** Whatever the end of the loop, a table holds an entity only under its
    own key, and only entities of the list. *)
Lemma group_by_user_members h ids m r k es e :
  group_by_user h ids = (m, r) → own_get k m = Some es → e ∈ es →
  e ∈ ids ∧ key_of h e = Some k.
Proof.
  intros H. revert k es e.
  refine (forEach_invariant
    (λ m, ∀ k es e, own_get k m = Some es → e ∈ es → e ∈ ids ∧ key_of h e = Some k)
    _ _ _ _ _ _ _ H); [|done].
  intros x t t' [|err] Hx Ht Hstep k es e.
  - apply group_entity_Normal in Hstep.
    destruct (key_of h x) as [k0|] eqn:Ek; [|subst; apply Ht].
    destruct Hstep as [-> _]. destruct (decide (k0 = k)) as [->|Hne].
    + rewrite own_get_set_eq.
      intros [= <-] [Hin|Hin%list_elem_of_singleton]%elem_of_app; [|by subst].
      destruct (own_get k t) as [es0|] eqn:E0; [by eapply Ht|].
      by apply elem_of_nil in Hin.
    + rewrite own_get_set_ne by done. apply Ht.
  - unfold group_entity in Hstep.
    destruct (entity h x) as [[[? ?] ?]|]; [|injection Hstep as <-; apply Ht].
    destruct (match_user _); [|done]. destruct (truthy _); [|done].
    destruct (own_get _ t); [done|]. destruct (inherited _); [|done].
    injection Hstep as <-. apply Ht.
Qed.

Lemma group_by_user_no_throw h ids :
  (∀ e, e ∈ ids → is_Some (entity h e)) →
  (∀ e k, e ∈ ids → key_of h e = Some k → inherited k = false) →
  ∃ m, group_by_user h ids = (m, Normal).
Proof.
  unfold group_by_user. generalize (@nil (string * list string)).
  induction ids as [|e ids IH]; intros m He Hk; simpl; [by eexists|].
  destruct (group_entity_no_throw h e m) as [m' ->].
  - apply He. left.
  - intros k. apply Hk. left.
  - apply IH; [intros; apply He; by right|intros ???; apply Hk; by right].
Qed.

End Grouping.

(** ** Drawing *)

Section Drawing.
Import JsString JsObject HealthBridgeCard Spec.
Implicit Types (h : Hass) (e k : string) (m : JsObject.t (list string)).

Lemma add_cards h ids grid :
  (∀ e, e ∈ ids → is_Some (entity h e)) →
  forEach (add_card h) ids grid = (grid ++ cards h ids, Normal).
Proof.
  revert grid. induction ids as [|e ids IH]; intros grid He; simpl.
  - by rewrite app_nil_r.
  - destruct (He e) as [[[st a] fn] E]; [left|].
    unfold add_card at 1, cards, card_of at 1. rewrite E. simpl.
    rewrite IH by (intros; apply He; by right). by rewrite <-app_assoc.
Qed.

Lemma add_sections h m ks children :
  (∀ k, k ∈ ks → ∃ ids, own_get k m = Some ids ∧
                        ∀ e, e ∈ ids → is_Some (entity h e)) →
  forEach (add_section h m) ks children =
  (children ++ (section_of h m <$> ks), Normal).
Proof.
  revert children. induction ks as [|k ks IH]; intros children Hk; simpl.
  - by rewrite app_nil_r.
  - destruct (Hk k) as (ids & E & He); [left|].
    unfold add_section at 1, section_of at 1. rewrite E, add_cards by done.
    simpl. rewrite IH by (intros; apply Hk; by right). by rewrite <-app_assoc.
Qed.

Lemma healthBridgeEntities_entity h e :
  e ∈ healthBridgeEntities h → is_Some (entity h e).
Proof.
  intros (H & _)%elem_of_healthBridgeEntities.
  apply named_with_paren_entity in H as (st & a & fn & -> & _). by eexists.
Qed.

Lemma draw_empty σ cfg h :
  healthBridgeEntities h = [] →
  draw σ cfg h = ([header σ cfg; placeholder], Normal).
Proof. unfold draw. by intros ->. Qed.

Lemma draw_throw σ cfg h m err :
  group_by_user h (healthBridgeEntities h) = (m, Throw err) →
  draw σ cfg h = ([header σ cfg], Throw err).
Proof.
  unfold draw. intros H. rewrite H.
  by destruct (healthBridgeEntities h).
Qed.

Lemma draw_sections σ cfg h m :
  group_by_user h (healthBridgeEntities h) = (m, Normal) →
  healthBridgeEntities h ≠ [] →
  draw σ cfg h = (header σ cfg :: (section_of h m <$> own_keys m), Normal).
Proof.
  unfold draw. intros H Hne. rewrite H.
  destruct (healthBridgeEntities h) as [|e0 ids0] eqn:Eids; [done|].
  rewrite <-Eids in H. rewrite add_sections; [done|].
  intros k Hk%elem_of_own_keys. destruct (own_get_is_Some _ _ Hk) as [ids E].
  exists ids. split; [done|]. intros e He.
  apply healthBridgeEntities_entity.
  by destruct (group_by_user_members _ _ _ _ _ _ _ H E He).
Qed.

Lemma user_sections_of_sections h m ks n :
  is_user_section n = false →
  user_sections (n :: (section_of h m <$> ks)) = section_of h m <$> ks.
Proof.
  intros Hn. unfold user_sections.
  rewrite filter_cons_False by (simpl; rewrite Hn; exact id).
  induction ks as [|k ks IH]; [done|].
  rewrite fmap_cons, filter_cons_True by exact I. by rewrite IH.
Qed.

(** [set hass] on a configured card: the content is what [draw] gives. *)
Lemma set_hass_configured σ h w cfg :
  config w = Some cfg →
  set_hass σ h w =
  ({| _hass := Some h; config := Some cfg; content := Some (draw σ cfg h).1 |},
   (draw σ cfg h).2).
Proof.
  intros Hc. unfold set_hass, updateCard. simpl. rewrite Hc.
  destruct (content w); simpl; by destruct (draw σ cfg h).
Qed.

(** [set hass] before [setConfig]: the container is created and stays
    empty. *)
Lemma set_hass_unconfigured σ h w :
  config w = None →
  set_hass σ h w =
  ({| _hass := Some h; config := None; content := Some (default [] (content w)) |},
   Normal).
Proof.
  intros Hc. unfold set_hass, updateCard. simpl. rewrite Hc.
  by destruct (content w).
Qed.

Lemma draw_header σ cfg h : ∃ rest, (draw σ cfg h).1 = header σ cfg :: rest.
Proof.
  destruct (group_by_user h (healthBridgeEntities h)) as [m [|err]] eqn:E.
  - destruct (decide (healthBridgeEntities h = [])) as [H0|H0].
    + rewrite draw_empty by done. by eexists.
    + rewrite (draw_sections _ _ _ _ E H0). by eexists.
  - rewrite (draw_throw _ _ _ _ _ E). by eexists.
Qed.

End Drawing.

(** ** The claims *)

Section Claims.
Import JsString JsObject HealthBridgeCard Spec Sample.
Implicit Types (h : Hass) (e k : string) (m : JsObject.t (list string))
  (σ : heap) (w : HealthBridgeCard.t).

(** C1, as stated, fails: the friendly name ["Steps ("] passes the filter
    and gives no grouping key, so the pass forms no group, yet the output
    is the header alone and not the header followed by the placeholder. *)
Lemma no_groups_without_placeholder :
  healthBridgeEntities open_paren = ["sensor.health_steps"] ∧
  group_by_user open_paren (healthBridgeEntities open_paren) = ([], Normal) ∧
  set_hass titled_config open_paren configured =
    ({| _hass := Some open_paren; config := Some 1%positive;
        content := Some [TextDiv "header" "Health Bridge"] |}, Normal) ∧
  content (set_hass titled_config open_paren configured).1
    ≠ Some [TextDiv "header" "Health Bridge"; placeholder].
Proof. split_and!; [reflexivity..|discriminate]. Qed.

(** C1 (amended): on a configured card, when no entity passes the two
    filters the content is the header followed by the placeholder and
    nothing else, and the pass ends normally; when some entity passes them
    and the grouping table stays empty, the content is the header alone. *)
Theorem placeholder_on_empty_filter σ w cfg h :
  config w = Some cfg →
  (healthBridgeEntities h = [] →
     set_hass σ h w =
       ({| _hass := Some h; config := Some cfg;
           content := Some [header σ cfg; placeholder] |}, Normal)) ∧
  (healthBridgeEntities h ≠ [] →
     (group_by_user h (healthBridgeEntities h)).1 = [] →
     content (set_hass σ h w).1 = Some [header σ cfg]).
Proof.
  intros Hc. rewrite (set_hass_configured _ _ _ _ Hc). split.
  - intros H0. by rewrite draw_empty.
  - intros Hne Hm. simpl. f_equal.
    destruct (group_by_user h (healthBridgeEntities h)) as [m [|err]] eqn:E.
    + rewrite (draw_sections _ _ _ _ E Hne). simpl in Hm. by subst m.
    + by rewrite (draw_throw _ _ _ _ _ E).
Qed.

(** A table without sensors shows the placeholder; the table of
    [open_paren] shows the header alone. *)
Lemma placeholder_on_empty_filter_witness :
  set_hass titled_config {| states := [("light.kitchen", sensor "Kitchen" "on" None None)] |}
    configured =
    ({| _hass := Some {| states := [("light.kitchen", sensor "Kitchen" "on" None None)] |};
        config := Some 1%positive;
        content := Some [TextDiv "header" "Health Bridge"; placeholder] |}, Normal) ∧
  content (set_hass titled_config open_paren configured).1
    = Some [TextDiv "header" "Health Bridge"].
Proof.
  split.
  - apply (placeholder_on_empty_filter titled_config configured 1%positive); reflexivity.
  - apply (placeholder_on_empty_filter titled_config configured 1%positive);
      [reflexivity|discriminate|reflexivity].
Defined.

(** C4: assigning the same state table a second time gives the same card
    and the same outcome as assigning it once, and the content drawn does
    not depend on what the card held or showed before. *)
Theorem set_hass_idempotent σ h w :
  set_hass σ h (set_hass σ h w).1 = set_hass σ h w ∧
  ∀ cfg (before1 before2 : option Hass) (shown1 shown2 : option (list node)),
    content (set_hass σ h {| _hass := before1; config := Some cfg; content := shown1 |}).1 =
    content (set_hass σ h {| _hass := before2; config := Some cfg; content := shown2 |}).1.
Proof.
  split.
  - destruct (config w) as [cfg|] eqn:Hc.
    + rewrite (set_hass_configured _ _ w cfg Hc). simpl.
      by rewrite set_hass_configured with (cfg := cfg).
    + rewrite (set_hass_unconfigured _ _ w Hc). simpl.
      by rewrite set_hass_unconfigured.
  - intros. by rewrite !set_hass_configured with (cfg := cfg).
Qed.

(** [setConfig] on an object, case by case. *)
Lemma cell_insert σ l (o : object) : cell (<[l := o]> σ) l = o.
Proof. unfold cell. by rewrite lookup_insert_eq. Qed.

Lemma setConfig_truthy σ w l :
  prim_truthy (get_title (deref σ l)) = true →
  setConfig (VRef l) σ w
  = (σ, {| _hass := _hass w; config := Some l; content := content w |}, Normal).
Proof. unfold deref, setConfig. by intros ->. Qed.

Lemma setConfig_written σ w l :
  prim_truthy (get_title (deref σ l)) = false →
  accepts "title" (cell σ l) = true →
  setConfig (VRef l) σ w
  = (<[l := {| fields := own_set "title" (PStr "Health Bridge") (deref σ l);
               extensible := extensible (cell σ l);
               readonly := readonly (cell σ l) |}]> σ,
     {| _hass := _hass w; config := Some l; content := content w |}, Normal).
Proof. unfold deref, setConfig. by intros -> ->. Qed.

Lemma setConfig_refused σ w l :
  prim_truthy (get_title (deref σ l)) = false →
  accepts "title" (cell σ l) = false →
  setConfig (VRef l) σ w = (σ, w, Throw TypeError).
Proof. unfold deref, setConfig. by intros -> ->. Qed.

Lemma setConfig_outcome σ w l :
  (setConfig (VRef l) σ w).2 = Normal ↔
  prim_truthy (get_title (deref σ l)) = true ∨ accepts "title" (cell σ l) = true.
Proof.
  destruct (prim_truthy (get_title (deref σ l))) eqn:Ht.
  - rewrite setConfig_truthy by done. naive_solver.
  - destruct (accepts "title" (cell σ l)) eqn:Ha.
    + rewrite setConfig_written by done. naive_solver.
    + rewrite setConfig_refused by done. naive_solver.
Qed.

(** After a call that returns, the card refers to the object and the
    title of the object is truthy. *)
Lemma setConfig_Normal σ w l :
  (setConfig (VRef l) σ w).2 = Normal →
  config (setConfig (VRef l) σ w).1.2 = Some l ∧
  prim_truthy (get_title (deref (setConfig (VRef l) σ w).1.1 l)) = true.
Proof.
  destruct (prim_truthy (get_title (deref σ l))) eqn:Ht.
  - by rewrite setConfig_truthy by done.
  - destruct (accepts "title" (cell σ l)) eqn:Ha.
    + rewrite setConfig_written by done. intros _. split; [done|]. simpl.
      unfold deref at 1. rewrite cell_insert. simpl.
      unfold get_title. by rewrite own_get_set_eq.
    + by rewrite setConfig_refused by done.
Qed.

Lemma updates_config σ hs w : config (updates σ hs w) = config w.
Proof.
  revert w. induction hs as [|h hs IH]; intros w; [done|].
  simpl. rewrite IH. destruct (config w) as [cfg|] eqn:Hc.
  - by rewrite (set_hass_configured _ _ _ _ Hc).
  - by rewrite (set_hass_unconfigured _ _ _ Hc).
Qed.

(** The header after any number of assignments on a configured card. *)
Lemma updates_header σ l hs h w :
  config w = Some l →
  ∃ rest, content (set_hass σ h (updates σ hs w)).1
          = Some (TextDiv "header" (prim_text (get_title (deref σ l))) :: rest).
Proof.
  intros Hc. rewrite (set_hass_configured _ _ _ l) by (by rewrite updates_config).
  simpl. destruct (draw_header σ l h) as [rest ->]. by exists rest.
Qed.

(** C5, as stated, fails: [setConfig(null)] and [setConfig(undefined)]
    throw a [TypeError] and store nothing; so does [setConfig] with a
    frozen object that has no title; and a state table whose only sensor
    is named ["Steps (constructor)"] makes the drawing pass throw. *)
Lemma setConfig_null_throws :
  setConfig (VPrim PNull) empty_config new = (empty_config, new, Throw TypeError) ∧
  setConfig (VPrim PUndefined) empty_config new = (empty_config, new, Throw TypeError) ∧
  setConfig (VRef 1%positive) frozen_config new = (frozen_config, new, Throw TypeError) ∧
  (set_hass titled_config inherited_user configured).2 = Throw TypeError.
Proof. split_and!; reflexivity. Qed.

(** C5 (amended): [setConfig] throws a [TypeError] on every argument that
    is not an object; on an object it returns normally exactly when the
    title is truthy or the object accepts the assignment of [title], and
    otherwise it throws a [TypeError]; whenever it throws, the card and
    the store are as they were.  An assignment of the state table returns
    normally whenever no grouped entity has a user named like an inherited
    property, whatever entries, attributes, names, units or icons are
    missing. *)
Theorem setConfig_and_drawing_exceptions σ w :
  (∀ p, setConfig (VPrim p) σ w = (σ, w, Throw TypeError)) ∧
  (∀ l, (setConfig (VRef l) σ w).2 = Normal ↔
        prim_truthy (get_title (deref σ l)) = true ∨
        accepts "title" (cell σ l) = true) ∧
  (∀ cfg, (setConfig cfg σ w).2 ≠ Normal →
          setConfig cfg σ w = (σ, w, Throw TypeError)) ∧
  (∀ h, (∀ e k, e ∈ healthBridgeEntities h → key_of h e = Some k →
                inherited k = false) →
        (set_hass σ h w).2 = Normal).
Proof.
  split_and!; [done|apply setConfig_outcome| |].
  - intros [p|l]; [done|]. intros Hr.
    destruct (prim_truthy (get_title (deref σ l))) eqn:Ht;
      [by rewrite setConfig_truthy in Hr|].
    destruct (accepts "title" (cell σ l)) eqn:Ha;
      [by rewrite setConfig_written in Hr|].
    by apply setConfig_refused.
  - intros h Hk.
    destruct (config w) as [cfg|] eqn:Hc;
      [|by rewrite (set_hass_unconfigured _ _ _ Hc)].
    rewrite (set_hass_configured _ _ _ _ Hc). simpl.
    destruct (group_by_user_no_throw h (healthBridgeEntities h)) as [m Hm];
      [apply healthBridgeEntities_entity|done|].
    destruct (decide (healthBridgeEntities h = [])) as [H0|H0].
    + by rewrite draw_empty.
    + by rewrite (draw_sections _ _ _ _ Hm H0).
Qed.

(** A frozen object with a title is accepted, a frozen one without is
    refused and changes nothing, and the table of the examples, which has
    no inherited user name, is drawn without exception. *)
Lemma setConfig_and_drawing_exceptions_witness :
  (setConfig (VRef 1%positive) frozen_titled_config new).2 = Normal ∧
  setConfig (VRef 1%positive) frozen_config new = (frozen_config, new, Throw TypeError) ∧
  (set_hass titled_config alice_and_bob configured).2 = Normal.
Proof.
  split_and!.
  - apply (setConfig_and_drawing_exceptions frozen_titled_config new). by left.
  - apply (setConfig_and_drawing_exceptions frozen_config new). discriminate.
  - apply (setConfig_and_drawing_exceptions titled_config configured).
    intros e k He Hk. vm_compute in He.
    repeat (apply elem_of_cons in He as [->|He];
            [vm_compute in Hk; by injection Hk as <-|]).
    by apply elem_of_nil in He.
Defined.

(** C6, as stated, fails: [setConfig] called with the empty object [{}]
    adds the field [title] to that very object of the caller. *)
Lemma setConfig_writes_title :
  deref empty_config 1%positive = [] ∧
  deref (setConfig (VRef 1%positive) empty_config new).1.1 1%positive
    = [("title", PStr "Health Bridge")].
Proof. split; reflexivity. Qed.

(** C6 (amended): when [setConfig] called with an object returns, the
    card refers to that object and neither [_hass] nor the content has
    changed; every other object of the store, every field of the object
    other than [title], and its extensibility and read-only fields are
    as they were; the object itself is untouched when its title is
    truthy, and otherwise its [title] has become ["Health Bridge"].  When
    the call throws, which it does for a falsy title on an object that
    does not accept the assignment, neither the store nor the card has
    changed. *)
Theorem setConfig_frame σ w l :
  let '(σ', w', r) := setConfig (VRef l) σ w in
  (r = Normal →
     config w' = Some l ∧ _hass w' = _hass w ∧ content w' = content w ∧
     (∀ l', l' ≠ l → σ' !! l' = σ !! l') ∧
     (∀ k, k ≠ "title" → own_get k (deref σ' l) = own_get k (deref σ l)) ∧
     extensible (cell σ' l) = extensible (cell σ l) ∧
     readonly (cell σ' l) = readonly (cell σ l) ∧
     (prim_truthy (get_title (deref σ l)) = true → σ' = σ) ∧
     (prim_truthy (get_title (deref σ l)) = false →
        get_title (deref σ' l) = PStr "Health Bridge")) ∧
  (r ≠ Normal →
     σ' = σ ∧ w' = w ∧
     prim_truthy (get_title (deref σ l)) = false ∧
     accepts "title" (cell σ l) = false).
Proof.
  destruct (prim_truthy (get_title (deref σ l))) eqn:Ht.
  { rewrite setConfig_truthy by done. split; [|done]. intros _. by split_and!. }
  destruct (accepts "title" (cell σ l)) eqn:Ha.
  - rewrite setConfig_written by done. split; [|done]. intros _. split_and!; try done.
    + intros l' Hne. by rewrite lookup_insert_ne.
    + intros k Hne. unfold deref at 1. rewrite cell_insert. simpl.
      by rewrite own_get_set_ne.
    + by rewrite cell_insert.
    + by rewrite cell_insert.
    + intros _. unfold deref at 1. rewrite cell_insert. simpl.
      unfold get_title. by rewrite own_get_set_eq.
  - rewrite setConfig_refused by done. by split.
Qed.

(** A configuration with a title is left as it is; the empty one gets
    the default title, and nothing else changes; the frozen one without
    title is refused and nothing changes at all. *)
Lemma setConfig_frame_witness :
  (setConfig (VRef 1%positive) custom_config new).1.1 = custom_config ∧
  get_title (deref (setConfig (VRef 1%positive) empty_config new).1.1 1%positive)
    = PStr "Health Bridge" ∧
  (setConfig (VRef 1%positive) empty_config new).1.1 !! 2%positive
    = empty_config !! 2%positive ∧
  own_get "type" (deref (setConfig (VRef 1%positive) custom_config new).1.1 1%positive)
    = own_get "type" (deref custom_config 1%positive) ∧
  (setConfig (VRef 1%positive) frozen_config new).1 = (frozen_config, new).
Proof.
  pose proof (setConfig_frame custom_config new 1%positive) as H1.
  pose proof (setConfig_frame empty_config new 1%positive) as H2.
  pose proof (setConfig_frame frozen_config new 1%positive) as H3.
  destruct (setConfig (VRef 1%positive) custom_config new) as [[σ1 w1] r1] eqn:E1.
  destruct (setConfig (VRef 1%positive) empty_config new) as [[σ2 w2] r2] eqn:E2.
  destruct (setConfig (VRef 1%positive) frozen_config new) as [[σ3 w3] r3] eqn:E3.
  assert (r1 = Normal) as Hr1 by (by injection E1).
  assert (r2 = Normal) as Hr2 by (by injection E2).
  assert (r3 ≠ Normal) as Hr3 by (by injection E3 as _ _ <-).
  destruct (proj1 H1 Hr1) as (_ & _ & _ & _ & H1k & _ & _ & H1t & _).
  destruct (proj1 H2 Hr2) as (_ & _ & _ & H2o & _ & _ & _ & _ & H2f).
  destruct (proj2 H3 Hr3) as (H3s & H3w & _).
  simpl. split_and!.
  - apply H1t. reflexivity.
  - apply H2f. reflexivity.
  - apply H2o. discriminate.
  - apply H1k. discriminate.
  - by rewrite H3s, H3w.
Defined.

(** C9, as stated, fails: [setConfig] called with a frozen object
    without title throws, the card keeps no configuration, and the next
    assignment of a state table draws nothing, so no header
    ["Health Bridge"] is shown. *)
Lemma frozen_config_not_titled :
  get_title (deref frozen_config 1%positive) = PUndefined ∧
  setConfig (VRef 1%positive) frozen_config new = (frozen_config, new, Throw TypeError) ∧
  set_hass frozen_config alice_and_bob
    (setConfig (VRef 1%positive) frozen_config new).1.2
  = ({| _hass := Some alice_and_bob; config := None; content := Some [] |}, Normal).
Proof. split_and!; reflexivity. Qed.

(** C9 (amended): after [setConfig] with an object whose title is
    missing, empty or otherwise falsy and which accepts the assignment of
    [title], the stored title is ["Health Bridge"] and every later
    assignment of a state table shows the header ["Health Bridge"]; with
    a non-empty title string the call returns, whether the object accepts
    assignments or not, and the header shows that string; with a falsy
    title on an object that does not accept the assignment, the call
    throws a [TypeError] and the store and the card are as they were. *)
Theorem header_shows_resolved_title σ w l hs h :
  let '(σ', w', r) := setConfig (VRef l) σ w in
  (prim_truthy (get_title (deref σ l)) = false →
   accepts "title" (cell σ l) = true →
     r = Normal ∧
     get_title (deref σ' l) = PStr "Health Bridge" ∧
     ∃ rest, content (set_hass σ' h (updates σ' hs w')).1
             = Some (TextDiv "header" "Health Bridge" :: rest)) ∧
  (∀ s, get_title (deref σ l) = PStr s → s ≠ "" →
     r = Normal ∧
     get_title (deref σ' l) = PStr s ∧
     ∃ rest, content (set_hass σ' h (updates σ' hs w')).1
             = Some (TextDiv "header" s :: rest)) ∧
  (prim_truthy (get_title (deref σ l)) = false →
   accepts "title" (cell σ l) = false →
     (σ', w', r) = (σ, w, Throw TypeError)).
Proof.
  destruct (prim_truthy (get_title (deref σ l))) eqn:Ht.
  - rewrite setConfig_truthy by done. split_and!; [done| |done].
    intros s Hs Hne. split_and!; [done..|].
    destruct (updates_header σ l hs h
                {| _hass := _hass w; config := Some l; content := content w |} eq_refl)
      as [rest Hrest].
    exists rest. by rewrite Hrest, Hs.
  - destruct (accepts "title" (cell σ l)) eqn:Ha.
    + rewrite setConfig_written by done.
      set (σ' := <[l := _]> σ).
      assert (get_title (deref σ' l) = PStr "Health Bridge") as Hnew.
      { unfold σ', deref at 1. rewrite cell_insert. simpl.
        unfold get_title. by rewrite own_get_set_eq. }
      split_and!; [|by intros s Hs; rewrite Hs in Ht; destruct s|done].
      intros _ _. split_and!; [done..|].
      destruct (updates_header σ' l hs h
                  {| _hass := _hass w; config := Some l; content := content w |} eq_refl)
        as [rest Hrest].
      exists rest. by rewrite Hrest, Hnew.
    + rewrite setConfig_refused by done. split_and!; [done| |done].
      intros s Hs. rewrite Hs in Ht. by destruct s.
Qed.

(** The default and a custom title, after two assignments of a state
    table, and the frozen configuration without title. *)
Lemma header_shows_resolved_title_witness :
  (∃ rest, content (set_hass (setConfig (VRef 1%positive) empty_config new).1.1 alice_and_bob
             (updates (setConfig (VRef 1%positive) empty_config new).1.1 [open_paren]
                (setConfig (VRef 1%positive) empty_config new).1.2)).1
           = Some (TextDiv "header" "Health Bridge" :: rest)) ∧
  (∃ rest, content (set_hass (setConfig (VRef 1%positive) frozen_titled_config new).1.1
             alice_and_bob
             (updates (setConfig (VRef 1%positive) frozen_titled_config new).1.1 [open_paren]
                (setConfig (VRef 1%positive) frozen_titled_config new).1.2)).1
           = Some (TextDiv "header" "Our Health" :: rest)) ∧
  setConfig (VRef 1%positive) frozen_config new = (frozen_config, new, Throw TypeError).
Proof.
  pose proof (header_shows_resolved_title empty_config new 1%positive [open_paren] alice_and_bob) as H1.
  pose proof (header_shows_resolved_title frozen_titled_config new 1%positive [open_paren] alice_and_bob) as H2.
  pose proof (header_shows_resolved_title frozen_config new 1%positive [open_paren] alice_and_bob) as H3.
  destruct (setConfig (VRef 1%positive) empty_config new) as [[σ1 w1] r1].
  destruct (setConfig (VRef 1%positive) frozen_titled_config new) as [[σ2 w2] r2].
  destruct (setConfig (VRef 1%positive) frozen_config new) as [[σ3 w3] r3].
  simpl. split_and!.
  - apply (proj1 H1); reflexivity.
  - apply (proj1 (proj2 H2) "Our Health"); [reflexivity|discriminate].
  - apply (proj2 (proj2 H3)); reflexivity.
Defined.

End Claims.

Section Claims_grouping.
Import JsString JsObject HealthBridgeCard Spec Sample.
Implicit Types (h : Hass) (e k : string) (m : JsObject.t (list string))
  (σ : heap) (w : HealthBridgeCard.t).

(** The user sections a configured card shows after an assignment that
    ends normally. *)
Lemma set_hass_Normal σ w cfg h :
  config w = Some cfg →
  (set_hass σ h w).2 = Normal →
  ∃ m, group_by_user h (healthBridgeEntities h) = (m, Normal) ∧
       user_sections (default [] (content (set_hass σ h w).1))
         = section_of h m <$> own_keys m.
Proof.
  intros Hc. rewrite (set_hass_configured _ _ _ _ Hc). simpl.
  destruct (group_by_user h (healthBridgeEntities h)) as [m [|err]] eqn:E.
  - intros _. exists m. split; [done|].
    destruct (decide (healthBridgeEntities h = [])) as [H0|H0].
    + rewrite draw_empty by done. rewrite H0 in E. by injection E as <-.
    + rewrite (draw_sections _ _ _ _ E H0). simpl.
      by apply user_sections_of_sections.
  - by rewrite (draw_throw _ _ _ _ _ E).
Qed.

Lemma grouped_lookup h ids m e k :
  grouped h ids m → e ∈ ids → key_of h e = Some k →
  k ∈ m.*1 ∧ own_get k m = Some (filter (λ e', key_of h e' = Some k) ids).
Proof.
  intros [Hk Hg] He Hkey.
  assert (k ∈ m.*1) as Hin.
  { rewrite Hk, first_seen_elem_of. apply elem_of_omap_key. eauto. }
  split; [done|]. by apply Hg.
Qed.

(** C2, as stated, fails.  The friendly name ["Heart Rate (avg (alice)"]
    is a name, a space and a user in parentheses, with name
    ["Heart Rate (avg"] and user ["alice"]; its card stands under the key
    ["avg (alice"] and shows the name ["Heart Rate"].  And for the
    friendly name ["Steps (constructor)"] the pass throws and draws no
    card at all. *)
Lemma convention_card_fails :
  "Heart Rate (avg (alice)" = "Heart Rate (avg" +:+ " (" +:+ "alice" +:+ ")" ∧
  set_hass titled_config nested_paren configured =
    ({| _hass := Some nested_paren; config := Some 1%positive;
        content := Some
          [ TextDiv "header" "Health Bridge";
            user_section "avg (alice"
              [ Div "metric-card"
                  [ HtmlDiv "metric-icon" default_icon_html;
                    TextDiv "metric-value" "61";
                    TextDiv "metric-name" "Heart Rate";
                    TextDiv "metric-unit" "bpm" ] ] ] |}, Normal) ∧
  set_hass titled_config inherited_user configured =
    ({| _hass := Some inherited_user; config := Some 1%positive;
        content := Some [ TextDiv "header" "Health Bridge" ] |}, Throw TypeError).
Proof. split_and!; reflexivity. Qed.

(** C2 (amended): on a configured card whose drawing pass ends normally,
    take an entity of a well-formed state table whose id starts with
    ["sensor."] and contains an underscore, and whose friendly name is a
    name that leaves no parenthesis open, a space, and in parentheses a
    non-empty user without closing parenthesis.  Then the user is a key of
    the grouping table, the section of that key holds the cards of the
    group, the entity occurs once in that group and in no other group, and
    its card shows the icon, the raw state, the name, and the unit when
    there is a non-empty one. *)
Theorem convention_card σ w cfg h e st a name user :
  config w = Some cfg →
  wf (states h) →
  own_get e (states h) = Some (Some st) →
  attributes st = Some a →
  friendly_name a = Some (name +:+ " (" +:+ user +:+ ")") →
  startsWith "sensor." e = true → includes "_" e = true →
  parens_closed name → user ≠ "" → includes ")" user = false →
  (set_hass σ h w).2 = Normal →
  ∃ m ids icon_el,
    group_by_user h (healthBridgeEntities h) = (m, Normal) ∧
    user_sections (default [] (content (set_hass σ h w).1))
      = section_of h m <$> own_keys m ∧
    user ∈ own_keys m ∧
    own_get user m = Some ids ∧
    section_of h m user = user_section user (cards h ids) ∧
    e ∈ ids ∧ NoDup ids ∧
    (∀ k' ids', own_get k' m = Some ids' → e ∈ ids' → k' = user) ∧
    card_of h e = Some
      (Div "metric-card"
         ([ icon_el; TextDiv "metric-value" (state st); TextDiv "metric-name" name ]
          ++ match unit_of_measurement a with
             | Some (String c u) => [ TextDiv "metric-unit" (String c u) ]
             | _ => []
             end)).
Proof.
  intros Hc Hwf Hst Ha Hfn Hs Hu Hname Hne Huser Hr.
  destruct (set_hass_Normal _ _ _ _ Hc Hr) as (m & Hm & Hsec).
  set (fn := name +:+ " (" +:+ user +:+ ")") in *.
  assert (entity h e = Some (st, a, fn)) as He by (by apply entity_Some).
  assert (key_of h e = Some user) as Hkey.
  { rewrite (key_of_entity _ _ _ _ _ He). by apply match_user_convention. }
  assert (e ∈ healthBridgeEntities h) as Hin.
  { apply elem_of_healthBridgeEntities. split_and!.
    - unfold named_with_paren. rewrite Hst, Ha, Hfn. fold fn.
      assert (includes "(" fn = true) as ->.
      { unfold fn. rewrite !includes_append. simpl. by rewrite orb_true_r. }
      by destruct name.
    - unfold sensor_id. by rewrite Hs, Hu.
    - by eapply own_get_Some_keys. }
  destruct (grouped_lookup _ _ _ _ _ (group_by_user_grouped _ _ _ Hm) Hin Hkey)
    as [Hk Hids].
  eexists m, _, _. split_and!; try done.
  - by apply elem_of_own_keys.
  - unfold section_of. by rewrite Hids.
  - by apply list_elem_of_filter.
  - by apply NoDup_filter, healthBridgeEntities_NoDup.
  - intros k' ids' Hk' He'.
    destruct (group_by_user_members _ _ _ _ _ _ _ Hm Hk' He') as [_ Hkey'].
    congruence.
  - unfold card_of. rewrite He. simpl. unfold metric_card. fold fn.
    unfold fn at 1. rewrite strip_user_convention by done.
    do 3 f_equal. by destruct (unit_of_measurement a) as [[|c u]|].
Qed.

(** The card of ["Steps (alice)"] with value ["1200"] and unit
    ["count"]. *)
Lemma convention_card_witness :
  ∃ m ids icon_el,
    group_by_user alice_and_bob (healthBridgeEntities alice_and_bob) = (m, Normal) ∧
    user_sections (default [] (content (set_hass titled_config alice_and_bob configured).1))
      = section_of alice_and_bob m <$> own_keys m ∧
    "alice" ∈ own_keys m ∧
    own_get "alice" m = Some ids ∧
    section_of alice_and_bob m "alice" = user_section "alice" (cards alice_and_bob ids) ∧
    "sensor.health_steps_alice" ∈ ids ∧ NoDup ids ∧
    (∀ k' ids', own_get k' m = Some ids' → "sensor.health_steps_alice" ∈ ids' → k' = "alice") ∧
    card_of alice_and_bob "sensor.health_steps_alice" = Some
      (Div "metric-card"
         [ icon_el; TextDiv "metric-value" "1200"; TextDiv "metric-name" "Steps";
           TextDiv "metric-unit" "count" ]).
Proof.
  apply (convention_card titled_config configured 1%positive alice_and_bob
           "sensor.health_steps_alice"
           {| state := "1200";
              attributes := Some {| friendly_name := Some "Steps (alice)";
                                    unit_of_measurement := Some "count";
                                    icon := None |} |}
           {| friendly_name := Some "Steps (alice)";
              unit_of_measurement := Some "count"; icon := None |}
           "Steps" "alice");
    try reflexivity.
  - unfold wf. vm_compute. repeat constructor; set_solver.
  - by apply parens_closed_no_open.
  - discriminate.
Defined.

End Claims_grouping.

Section Claims_exclusion.
Import JsString JsObject HealthBridgeCard Spec Sample.
Implicit Types (h : Hass) (e k : string) (m : JsObject.t (list string))
  (σ : heap) (w : HealthBridgeCard.t).

Lemma entity_without h e e' : e' ≠ e → entity (without e h) e' = entity h e'.
Proof. intros Hne. unfold entity, without. simpl. by rewrite own_get_delete_ne. Qed.

Lemma named_with_paren_without h e e' :
  e' ≠ e → named_with_paren (without e h) e' = named_with_paren h e'.
Proof.
  intros Hne. unfold named_with_paren, without. simpl.
  by rewrite own_get_delete_ne.
Qed.

Lemma healthBridgeEntities_without h e :
  healthBridgeEntities (without e h)
  = filter (λ e', e' ≠ e) (healthBridgeEntities h).
Proof.
  rewrite !healthBridgeEntities_creation_order. unfold without at 2. simpl.
  rewrite own_delete_keys.
  induction (states h).*1 as [|x ks IH]; [done|].
  destruct (decide (x = e)) as [->|Hne].
  - rewrite (filter_cons_False _ e) by auto. rewrite IH.
    rewrite (filter_cons (λ e0, sensor_id e0)). case_decide; [|done].
    rewrite (filter_cons (λ e0, named_with_paren h e0)). case_decide; [|done].
    by rewrite filter_cons_False by auto.
  - rewrite (filter_cons_True (λ e', e' ≠ e)) by done.
    destruct (decide (sensor_id x)) as [Hs|Hs];
      [|by rewrite !(filter_cons_False (λ e0, sensor_id e0)) by done].
    rewrite !(filter_cons_True (λ e0, sensor_id e0)) by done.
    destruct (decide (named_with_paren h x)) as [Hn|Hn].
    + rewrite (filter_cons_True (λ e0, named_with_paren h e0)) by done.
      rewrite (filter_cons_True (λ e0, named_with_paren (without e h) e0))
        by (by rewrite named_with_paren_without).
      rewrite filter_cons_True by done. by rewrite IH.
    + rewrite (filter_cons_False (λ e0, named_with_paren h e0)) by done.
      by rewrite (filter_cons_False (λ e0, named_with_paren (without e h) e0))
        by (by rewrite named_with_paren_without).
Qed.

Lemma group_entity_without h e e' m :
  e' ≠ e → group_entity (without e h) e' m = group_entity h e' m.
Proof. intros Hne. unfold group_entity. by rewrite entity_without. Qed.

(** The grouping loop does not see an entity that yields no key. *)
Lemma group_by_user_without h e :
  (e ∈ healthBridgeEntities h → key_of h e = None) →
  group_by_user (without e h) (healthBridgeEntities (without e h))
  = group_by_user h (healthBridgeEntities h).
Proof.
  intros Hk. rewrite healthBridgeEntities_without. unfold group_by_user.
  assert (∀ x, x ∈ healthBridgeEntities h → x = e →
               ∀ m, group_entity h x m = (m, Normal)) as Hskip.
  { intros x Hx -> m. apply group_entity_skip; [|by apply Hk].
    by apply healthBridgeEntities_entity. }
  clear Hk. generalize (@nil (string * list string)). revert Hskip.
  induction (healthBridgeEntities h) as [|x ids IH]; intros Hskip m; [done|].
  destruct (decide (x = e)) as [->|Hne].
  - rewrite filter_cons_False by auto. simpl.
    rewrite (Hskip e) by (done || left).
    apply IH. intros ????. apply Hskip; [by right|done].
  - rewrite filter_cons_True by done. simpl.
    rewrite group_entity_without by done.
    destruct (group_entity h x m) as [m' [|err]]; [|done].
    apply IH. intros ????. apply Hskip; [by right|done].
Qed.

Lemma cards_without h e ids : e ∉ ids → cards (without e h) ids = cards h ids.
Proof.
  intros He. unfold cards. induction ids as [|x ids IH]; [done|].
  apply not_elem_of_cons in He as [Hne He]. csimpl.
  rewrite (IH He). unfold card_of at 1 3. by rewrite entity_without.
Qed.

Lemma draw_throw_iff σ cfg h :
  (draw σ cfg h).2 = (group_by_user h (healthBridgeEntities h)).2.
Proof.
  destruct (group_by_user h (healthBridgeEntities h)) as [m [|err]] eqn:E.
  - destruct (decide (healthBridgeEntities h = [])) as [H0|H0].
    + by rewrite draw_empty.
    + by rewrite (draw_sections _ _ _ _ E H0).
  - by rewrite (draw_throw _ _ _ _ _ E).
Qed.

Lemma draw_user_sections σ cfg h :
  user_sections (draw σ cfg h).1 =
  match group_by_user h (healthBridgeEntities h) with
  | (m, Normal) => section_of h m <$> own_keys m
  | (_, Throw _) => []
  end.
Proof.
  destruct (group_by_user h (healthBridgeEntities h)) as [m [|err]] eqn:E.
  - destruct (decide (healthBridgeEntities h = [])) as [H0|H0].
    + rewrite draw_empty by done. rewrite H0 in E. by injection E as <-.
    + rewrite (draw_sections _ _ _ _ E H0). by apply user_sections_of_sections.
  - by rewrite (draw_throw _ _ _ _ _ E).
Qed.

(** C3: an entity whose friendly name is missing or has no user suffix,
    or whose id does not start with ["sensor."] or contains no underscore,
    is in no group of the grouping table, however the loop ends; and the
    card shows the same user sections and ends with the same outcome as
    for the state table without that entity. *)
Theorem excluded_entity_is_invisible σ w cfg h e :
  config w = Some cfg →
  lacks_user_suffix h e ∨ startsWith "sensor." e = false ∨ includes "_" e = false →
  (∀ m r k ids, group_by_user h (healthBridgeEntities h) = (m, r) →
                own_get k m = Some ids → e ∉ ids) ∧
  user_sections (default [] (content (set_hass σ h w).1))
    = user_sections (default [] (content (set_hass σ (without e h) w).1)) ∧
  (set_hass σ h w).2 = (set_hass σ (without e h) w).2.
Proof.
  intros Hc Hex.
  assert (e ∈ healthBridgeEntities h → key_of h e = None) as Hk.
  { intros (_ & Hs & _)%elem_of_healthBridgeEntities.
    destruct Hex as [Hl|Hid]; [by apply key_of_lacks_suffix|].
    unfold sensor_id in Hs.
    destruct Hid as [Hid|Hid]; rewrite Hid in Hs; [done|by rewrite andb_false_r in Hs]. }
  split_and!.
  - intros m r k ids Hm Hids He.
    destruct (group_by_user_members _ _ _ _ _ _ _ Hm Hids He) as [Hin Hkey].
    rewrite Hk in Hkey; done.
  - rewrite !(set_hass_configured _ _ _ _ Hc). simpl.
    rewrite !draw_user_sections, (group_by_user_without _ _ Hk).
    destruct (group_by_user h (healthBridgeEntities h)) as [m [|err]] eqn:E; [|done].
    apply list_fmap_ext. intros _ k _. unfold section_of. f_equal.
    destruct (own_get k m) as [ids|] eqn:Hids; [|done]. simpl.
    symmetry. apply cards_without. intros He.
    destruct (group_by_user_members _ _ _ _ _ _ _ E Hids He) as [Hin Hkey].
    rewrite Hk in Hkey; done.
  - rewrite !(set_hass_configured _ _ _ _ Hc). simpl.
    by rewrite !draw_throw_iff, (group_by_user_without _ _ Hk).
Qed.

(** The sensor named ["Steps"], without user suffix, in the table of the
    examples. *)
Lemma excluded_entity_is_invisible_witness :
  (∀ m r k ids,
     group_by_user alice_and_bob (healthBridgeEntities alice_and_bob) = (m, r) →
     own_get k m = Some ids → "sensor.outdoor_temperature" ∉ ids) ∧
  user_sections (default [] (content (set_hass titled_config alice_and_bob configured).1))
    = user_sections (default [] (content
        (set_hass titled_config (without "sensor.outdoor_temperature" alice_and_bob)
           configured).1)) ∧
  (set_hass titled_config alice_and_bob configured).2
    = (set_hass titled_config (without "sensor.outdoor_temperature" alice_and_bob)
         configured).2.
Proof.
  apply (excluded_entity_is_invisible titled_config configured 1%positive);
    [reflexivity|].
  left. intros st a fn Hst Ha Hfn. vm_compute in Hst. injection Hst as <-.
  injection Ha as <-. injection Hfn as <-.
  apply match_user_None. reflexivity.
Defined.

End Claims_exclusion.

Section Claims_order.
Import JsString JsObject HealthBridgeCard Spec Sample.
Implicit Types (h : Hass) (e k : string) (m : JsObject.t (list string))
  (σ : heap) (w : HealthBridgeCard.t).

Lemma filter_all {A} (P : A → Prop) `{!∀ x, Decision (P x)} (l : list A) :
  (∀ x, x ∈ l → P x) → filter P l = l.
Proof.
  induction l as [|x l IH]; intros Hall; [done|].
  rewrite filter_cons_True by (apply Hall; left).
  f_equal. apply IH. intros ??. apply Hall. by right.
Qed.

Lemma own_keys_names {A} (o : JsObject.t A) :
  (∀ k, k ∈ o.*1 → is_name k) → own_keys o = o.*1.
Proof.
  intros H. unfold own_keys.
  assert (filter (λ k, ¬ is_name k) o.*1 = []) as Hnil.
  { apply elem_of_nil_inv. intros k [Hk Hin]%list_elem_of_filter. auto. }
  pose proof (index_keys_perm o.*1) as Hp. rewrite Hnil in Hp.
  apply Permutation_nil_r in Hp. rewrite Hp. simpl.
  by apply filter_all.
Qed.

(** C7, as stated, fails: with the users ["2"] and ["1"] met in this
    order, the sections are drawn in the order ["1"], ["2"]. *)
Lemma sections_not_in_first_seen_order :
  omap (key_of numbered_users) (healthBridgeEntities numbered_users) = ["2"; "1"] ∧
  user_headers (default [] (content (set_hass titled_config numbered_users configured).1))
    = ["User: 1"; "User: 2"].
Proof. split; reflexivity. Qed.

(** C7 (amended): when the grouping loop ends normally, the table has the
    users in first-seen order, each with its entities in the order of the
    filtered state table; the sections are drawn in the order of
    [Object.keys] on that table, which lists the users that are array
    indices first, in ascending numeric order, and then the other users
    in first-seen order; so the sections are in first-seen order whenever
    no user is an array index. *)
Theorem groups_and_sections_order σ w cfg h m :
  config w = Some cfg →
  group_by_user h (healthBridgeEntities h) = (m, Normal) →
  let users := first_seen (omap (key_of h) (healthBridgeEntities h)) in
  m.*1 = users ∧
  (∀ e k, e ∈ healthBridgeEntities h → key_of h e = Some k → k ∈ users) ∧
  (∀ k, k ∈ users →
     own_get k m
     = Some (filter (λ e, key_of h e = Some k) (healthBridgeEntities h))) ∧
  user_sections (default [] (content (set_hass σ h w).1))
    = section_of h m <$> own_keys m ∧
  (∃ idx : list (N * string),
     own_keys m = idx.*2 ++ filter is_name users ∧
     StronglySorted N.le idx.*1 ∧
     (∀ n k, (n, k) ∈ idx → array_index k = Some n) ∧
     idx.*2 ≡ₚ filter (λ k, ¬ is_name k) users) ∧
  ((∀ k, k ∈ users → is_name k) → own_keys m = users).
Proof.
  intros Hc Hm users.
  destruct (group_by_user_grouped _ _ _ Hm) as [Hk Hg]. fold users in Hk.
  split_and!.
  - done.
  - intros e k He Hkey. unfold users. rewrite first_seen_elem_of.
    apply elem_of_omap_key. eauto.
  - intros k Hin. apply Hg. by rewrite Hk.
  - rewrite (set_hass_configured _ _ _ _ Hc). simpl.
    by rewrite draw_user_sections, Hm.
  - exists (index_keys users). unfold own_keys. rewrite Hk. split_and!.
    + done.
    + apply index_keys_sorted.
    + intros n k. apply index_keys_values.
    + apply index_keys_perm.
  - intros Hn. rewrite <-Hk. apply own_keys_names. by rewrite Hk.
Qed.

(** ["Steps (alice)"] and ["Heart Rate (alice)"] share the one group of
    ["alice"], in the order of the table, before the group of ["bob"]. *)
Lemma groups_and_sections_order_witness :
  let m := (group_by_user alice_and_bob (healthBridgeEntities alice_and_bob)).1 in
  own_get "alice" m
    = Some ["sensor.health_steps_alice"; "sensor.health_heart_rate_alice"] ∧
  own_keys m = ["alice"; "bob"] ∧
  user_sections (default [] (content (set_hass titled_config alice_and_bob configured).1))
    = section_of alice_and_bob m <$> own_keys m.
Proof.
  intros m.
  destruct (groups_and_sections_order titled_config configured 1%positive
              alice_and_bob m eq_refl eq_refl)
    as (_ & _ & Hg & Hs & _ & Hn).
  split_and!.
  - rewrite (Hg "alice"); [reflexivity|]. vm_compute. set_solver.
  - rewrite Hn; [reflexivity|]. intros k Hk. vm_compute in Hk.
    repeat (apply elem_of_cons in Hk as [->|Hk]; [reflexivity|]).
    by apply elem_of_nil in Hk.
  - exact Hs.
Defined.

(** C8, at a failing input.  The sensor of [alice] has neither icon nor
    unit, passes the filters and yields the key ["alice"].  Beside a
    sensor whose user is called ["toString"] its card is not drawn: the
    grouping loop throws and the container holds the header alone.  On
    the table with that sensor alone the card is drawn, with the default
    icon and without unit element, as the claim says. *)
Lemma card_lost_beside_inherited_user :
  "sensor.health_steps_a" ∈ healthBridgeEntities alice_and_toString ∧
  key_of alice_and_toString "sensor.health_steps_a" = Some "alice" ∧
  set_hass titled_config alice_and_toString configured =
    ({| _hass := Some alice_and_toString; config := Some 1%positive;
        content := Some [ TextDiv "header" "Health Bridge" ] |}, Throw TypeError) ∧
  set_hass titled_config alice_alone configured =
    ({| _hass := Some alice_alone; config := Some 1%positive;
        content := Some
          [ TextDiv "header" "Health Bridge";
            user_section "alice"
              [ Div "metric-card"
                  [ HtmlDiv "metric-icon" default_icon_html;
                    TextDiv "metric-value" "1";
                    TextDiv "metric-name" "Steps" ] ] ] |}, Normal).
Proof. split_and!; [vm_compute; left|reflexivity..]. Qed.

(** X15: an entity that passes the filters and yields a key has a card
    made of the icon element, the raw state, the stripped name, and then
    the unit elements.  Without [icon] the icon element is the one of
    ["mdi:help-circle"]; without [unit_of_measurement] there is no unit
    element at all; the state and name elements are the same in every
    case.  Whenever the assignment ends normally, that card stands among
    the cards of the section of the entity's key. *)
Theorem missing_icon_or_unit σ w cfg h k e :
  config w = Some cfg →
  e ∈ healthBridgeEntities h →
  key_of h e = Some k →
  ∃ st a fn icon_el unit_els,
    entity h e = Some (st, a, fn) ∧
    card_of h e = Some
      (Div "metric-card"
         ([ icon_el; TextDiv "metric-value" (state st);
            TextDiv "metric-name" (strip_user fn) ] ++ unit_els)) ∧
    (icon a = None → icon_el = HtmlDiv "metric-icon" default_icon_html) ∧
    (∀ i, icon a = Some i → i ≠ "" →
       icon_el = HtmlDiv "metric-icon"
                   ("<ha-icon icon=" +:+ dquote +:+ i +:+ dquote +:+ "></ha-icon>")) ∧
    (unit_of_measurement a = None → unit_els = []) ∧
    (∀ u, unit_of_measurement a = Some u → u ≠ "" →
       unit_els = [ TextDiv "metric-unit" u ]) ∧
    ((set_hass σ h w).2 = Normal →
     ∃ m ids,
       group_by_user h (healthBridgeEntities h) = (m, Normal) ∧
       user_sections (default [] (content (set_hass σ h w).1))
         = section_of h m <$> own_keys m ∧
       k ∈ own_keys m ∧
       own_get k m = Some ids ∧ e ∈ ids ∧
       section_of h m k = user_section k (cards h ids) ∧
       Div "metric-card"
         ([ icon_el; TextDiv "metric-value" (state st);
            TextDiv "metric-name" (strip_user fn) ] ++ unit_els) ∈ cards h ids).
Proof.
  intros Hc Hin Hkey.
  destruct (healthBridgeEntities_entity _ _ Hin) as [[[st a] fn] Hent].
  assert (card_of h e = Some (metric_card st a fn)) as Hcard.
  { unfold card_of. by rewrite Hent. }
  exists st, a, fn. eexists _, _. split_and!.
  - done.
  - exact Hcard.
  - by intros ->.
  - intros i -> Hi. by destruct i.
  - by intros ->.
  - intros u -> Hu. by destruct u.
  - intros Hr. destruct (set_hass_Normal _ _ _ _ Hc Hr) as (m & Hm & Hsec).
    destruct (grouped_lookup _ _ _ _ _ (group_by_user_grouped _ _ _ Hm) Hin Hkey)
      as [Hk Hids].
    eexists m, _. split_and!; try done.
    + by apply elem_of_own_keys.
    + by apply list_elem_of_filter.
    + unfold section_of. by rewrite Hids.
    + unfold cards. apply list_elem_of_omap. exists e. split; [|exact Hcard].
      by apply list_elem_of_filter.
Qed.

(** The heart rate of the examples has no unit: its card has three
    elements and stands in the section of ["alice"]. *)
Lemma missing_icon_or_unit_witness :
  ∃ icon_el,
    card_of alice_and_bob "sensor.health_heart_rate_alice" = Some
      (Div "metric-card"
         [ icon_el; TextDiv "metric-value" "61"; TextDiv "metric-name" "Heart Rate" ]) ∧
    Div "metric-card"
         [ icon_el; TextDiv "metric-value" "61"; TextDiv "metric-name" "Heart Rate" ]
      ∈ cards alice_and_bob
          ["sensor.health_steps_alice"; "sensor.health_heart_rate_alice"].
Proof.
  destruct (missing_icon_or_unit titled_config configured 1%positive alice_and_bob
              "alice" "sensor.health_heart_rate_alice" eq_refl)
    as (st & a & fn & icon_el & unit_els & He & Hcard & _ & _ & Hu & _ & Hdrawn).
  - vm_compute. set_solver.
  - reflexivity.
  - injection He as <- <- <-. rewrite (Hu eq_refl) in Hcard, Hdrawn.
    exists icon_el. split; [exact Hcard|].
    destruct (Hdrawn eq_refl) as (m & ids & Hm & _ & _ & Hids & _ & _ & Hc).
    injection Hm as <-. injection Hids as <-. exact Hc.
Defined.

Lemma group_by_user_keys h ids m r k :
  group_by_user h ids = (m, r) → k ∈ m.*1 → ∃ e, key_of h e = Some k.
Proof.
  intros H. revert k.
  refine (forEach_invariant (λ m, ∀ k, k ∈ m.*1 → ∃ e, key_of h e = Some k)
            _ _ _ _ _ _ _ H); [|by intros k ?%elem_of_nil].
  intros x t t' [|err] Hx Ht Hstep k.
  - apply group_entity_Normal in Hstep.
    destruct (key_of h x) as [k0|] eqn:Ek; [|subst; apply Ht].
    destruct Hstep as [-> _].
    destruct (decide (k0 ∈ t.*1)) as [Hin|Hin].
    + rewrite own_set_keys_old by done. apply Ht.
    + rewrite own_set_keys_new by done.
      intros [?|Heq%list_elem_of_singleton]%elem_of_app; [by apply Ht|].
      subst. eauto.
  - unfold group_entity in Hstep.
    destruct (entity h x) as [[[? ?] ?]|]; [|injection Hstep as <-; apply Ht].
    destruct (match_user _); [|done]. destruct (truthy _); [|done].
    destruct (own_get _ t); [done|]. destruct (inherited _); [|done].
    injection Hstep as <-. apply Ht.
Qed.

(** C10, as stated, fails: the friendly name ["Steps (a()"] ends in [()]
    and is not dropped; the pattern matches from the first parenthesis
    and the entity gets a section under the user ["a("]. *)
Lemma empty_parenthetical_kept :
  match_user "Steps (a()" = Some "a(" ∧
  user_headers (default [] (content (set_hass titled_config empty_after_open configured).1))
    = ["User: a("].
Proof. split; reflexivity. Qed.

(** C10 (amended): however the grouping loop ends, every key of its table
    is a non-empty string without closing parenthesis; and an entity with
    a sensor id whose friendly name is a name that leaves no parenthesis
    open followed by [()] passes the filters, yields no key and is in no
    group. *)
Theorem keys_nonempty_without_close h m r :
  group_by_user h (healthBridgeEntities h) = (m, r) →
  (∀ k, k ∈ own_keys m → k ≠ "" ∧ includes ")" k = false) ∧
  (∀ e st a name,
     own_get e (states h) = Some (Some st) →
     attributes st = Some a →
     friendly_name a = Some (name +:+ "()") →
     sensor_id e = true →
     parens_closed name →
     e ∈ healthBridgeEntities h ∧ key_of h e = None ∧
     ∀ k ids, own_get k m = Some ids → e ∉ ids).
Proof.
  intros Hm. split.
  - intros k Hk%elem_of_own_keys.
    destruct (group_by_user_keys _ _ _ _ _ Hm Hk) as [e He].
    apply key_of_Some in He as (st & a & fn & _ & Hfn).
    apply match_user_Some in Hfn as (? & ? & _). done.
  - intros e st a name Hst Ha Hfn Hs Hname.
    assert (entity h e = Some (st, a, name +:+ "()")) as He by (by apply entity_Some).
    assert (key_of h e = None) as Hkey.
    { rewrite (key_of_entity _ _ _ _ _ He). by apply match_user_empty_group. }
    split_and!.
    + apply elem_of_healthBridgeEntities. split_and!.
      * unfold named_with_paren. rewrite Hst, Ha, Hfn.
        assert (includes "(" (name +:+ "()") = true) as ->.
        { rewrite includes_append. simpl. by rewrite orb_true_r. }
        by destruct name.
      * by rewrite Hs.
      * by eapply own_get_Some_keys.
    + done.
    + intros k ids Hids Hin.
      destruct (group_by_user_members _ _ _ _ _ _ _ Hm Hids Hin) as [_ Hk].
      congruence.
Qed.

(** The friendly name ["Steps ()"] passes the filters and is grouped
    nowhere. *)
Lemma keys_nonempty_without_close_witness :
  "sensor.health_steps" ∈ healthBridgeEntities empty_user ∧
  key_of empty_user "sensor.health_steps" = None ∧
  ∀ k ids, own_get k (group_by_user empty_user (healthBridgeEntities empty_user)).1
           = Some ids → "sensor.health_steps" ∉ ids.
Proof.
  apply (proj2 (keys_nonempty_without_close empty_user _ _ eq_refl) "sensor.health_steps"
           {| state := "1200";
              attributes := Some {| friendly_name := Some "Steps ()";
                                    unit_of_measurement := None; icon := None |} |}
           {| friendly_name := Some "Steps ()"; unit_of_measurement := None;
              icon := None |} "Steps ");
    try reflexivity.
  by apply parens_closed_no_open.
Defined.

End Claims_order.

(** * Further properties of the code *)

(** ** The patterns of [updateCard] *)

Section More_strings.
Import JsString JsObject HealthBridgeCard Spec Spec2 Sample.

Lemma parens_closed_nil : parens_closed "".
Proof. intros pre post H. by destruct pre. Qed.

Lemma parens_closed_cons (a : ascii) (s : string) :
  (a = "("%char → includes ")" s = true) → parens_closed s →
  parens_closed (String a s).
Proof.
  intros Ha Hs pre post H. destruct pre as [|b pre].
  - rewrite append_nil in H. change ("(" +:+ post) with (String "(" post) in H.
    injection H as -> ->. by apply Ha.
  - rewrite append_cons in H. injection H as -> ->. by apply (Hs pre post).
Qed.

Lemma group_to_close_open (s u : string) :
  u ≠ "" → includes ")" u = false →
  group_to_close (s +:+ "(" +:+ u +:+ ")") = None → includes ")" s = true.
Proof.
  intros Hne Hu H. destruct (includes ")" s) eqn:Hs; [done|]. exfalso.
  rewrite <-!append_assoc in H.
  rewrite (proj2 (group_to_close_Some _ ((s +:+ "(") +:+ u))) in H; [done|].
  split_and!; [done| |by destruct s].
  by rewrite !includes_append, Hs, Hu.
Qed.

Lemma parens_closedb_sound (s : string) : parens_closedb s = true → parens_closed s.
Proof.
  induction s as [|a s IH]; [intros _; apply parens_closed_nil|].
  simpl. intros [Ha Hs]%andb_prop. apply parens_closed_cons; [|by apply IH].
  intros ->. done.
Qed.

Lemma match_user_closed_prefix (pre u : string) :
  parens_closed pre → u ≠ "" → includes ")" u = false →
  match_user (pre +:+ "(" +:+ u +:+ ")") = Some u.
Proof.
  intros Hc Hne Hu. induction pre as [|a pre IH].
  - rewrite append_nil. change ("(" +:+ u +:+ ")") with (String "(" (u +:+ ")")).
    simpl. by rewrite (proj2 (group_to_close_Some _ u)).
  - rewrite append_cons. simpl.
    destruct (Ascii.eqb_spec a "(") as [->|_].
    + rewrite group_to_close_closed; [|by apply (Hc "" pre)|done].
      apply IH. by eapply parens_closed_tail.
    + apply IH. by eapply parens_closed_tail.
Qed.

Lemma match_user_prefix (s u : string) :
  match_user s = Some u →
  ∃ pre, s = pre +:+ "(" +:+ u +:+ ")" ∧ parens_closed pre.
Proof.
  induction s as [|a s IH]; [done|]. simpl.
  destruct (Ascii.eqb_spec a "(") as [->|Hne].
  - destruct (group_to_close s) as [v|] eqn:Hv.
    + intros [= <-]. apply group_to_close_Some in Hv as (-> & _ & _).
      exists "". split; [done|apply parens_closed_nil].
    + intros H. destruct (match_user_Some _ _ H) as (Hu & Hc & _).
      destruct (IH H) as (pre & -> & Hpre).
      exists (String "(" pre). split; [done|].
      apply parens_closed_cons; [|done]. intros _.
      by eapply group_to_close_open.
  - intros H. destruct (IH H) as (pre & -> & Hpre).
    exists (String a pre). split; [done|].
    by apply parens_closed_cons.
Qed.

(** X1: the capture of [/\(([^)]+)\)$/] is [u] exactly when the string
    is some prefix, an opening parenthesis, [u] and a closing
    parenthesis, where [u] is non-empty and has no closing parenthesis
    and the prefix leaves no opening parenthesis without a closing one:
    the match starts at the first opening parenthesis from which no
    closing one is met before the last character. *)
Theorem match_user_capture (s u : string) :
  match_user s = Some u ↔
  ∃ pre, s = pre +:+ "(" +:+ u +:+ ")" ∧ parens_closed pre ∧
         u ≠ "" ∧ includes ")" u = false.
Proof.
  split.
  - intros H. destruct (match_user_Some _ _ H) as (Hu & Hc & _).
    destruct (match_user_prefix _ _ H) as (pre & -> & Hpre). by exists pre.
  - intros (pre & -> & Hpre & Hu & Hc). by apply match_user_closed_prefix.
Qed.

(** The name ["Sleep (deep) (bob)"] gives the user ["bob"]. *)
Lemma match_user_capture_witness : match_user "Sleep (deep) (bob)" = Some "bob".
Proof.
  apply match_user_capture. exists "Sleep (deep) ". split_and!;
    [reflexivity| |discriminate|reflexivity].
  by apply parens_closedb_sound.
Defined.

Lemma strip_user_split (s : string) :
  ∃ rest, s = strip_user s +:+ rest ∧
    (rest = "" ∨
     ∃ v, rest = " (" +:+ v +:+ ")" ∧ v ≠ "" ∧ includes ")" v = false).
Proof.
  induction s as [|a s IH]; [by exists ""; auto|].
  simpl. destruct (Ascii.eqb_spec a " ") as [->|Hne]; simpl.
  - destruct s as [|b s].
    + exists "". split; [done|by left].
    + destruct (Ascii.eqb_spec b "(") as [->|Hb]; simpl.
      * destruct (group_to_close s) as [v|] eqn:Hv.
        -- rewrite bool_decide_eq_true_2 by (by eexists).
           apply group_to_close_Some in Hv as (-> & Hc & Hv).
           exists (" (" +:+ v +:+ ")"). split; [done|]. right. by exists v.
        -- rewrite bool_decide_eq_false_2 by (by intros [? ?]).
           destruct IH as (rest & IH & Hrest). exists rest. split; [|done].
           rewrite append_cons. f_equal. exact IH.
      * destruct IH as (rest & IH & Hrest). exists rest. split; [|done].
        rewrite append_cons. f_equal. exact IH.
  - destruct IH as (rest & IH & Hrest). exists rest. split; [|done].
    rewrite append_cons. f_equal. exact IH.
Qed.

Lemma length_append (s t : string) :
  String.length (s +:+ t) = (String.length s + String.length t)%nat.
Proof. induction s as [|a s IH]; [done|]. rewrite append_cons. simpl. by rewrite IH. Qed.

Lemma strip_user_length (s : string) :
  (String.length (strip_user s) ≤ String.length s)%nat.
Proof.
  destruct (strip_user_split s) as (rest & H & _).
  rewrite H at 2. rewrite length_append. lia.
Qed.

Lemma strip_user_shortens (s : string) :
  has_spaced_suffix s → strip_user s ≠ s.
Proof.
  intros (pre & v & -> & Hv & Hc) H.
  assert (String.length (strip_user (pre +:+ " (" +:+ v +:+ ")"))
          < String.length (pre +:+ " (" +:+ v +:+ ")"))%nat as Hlt; [|rewrite H in Hlt; lia].
  clear H. induction pre as [|a pre IH].
  - rewrite append_nil.
    change (" (" +:+ v +:+ ")") with (String " " (String "(" (v +:+ ")"))).
    simpl. rewrite (proj2 (group_to_close_Some _ v)) by done.
    rewrite bool_decide_eq_true_2 by (by eexists). simpl. lia.
  - rewrite append_cons. simpl.
    match goal with |- context [if ?b then _ else _] => destruct b end;
      simpl; lia.
Qed.

(** X2: [replace(/ \([^)]+\)$/, '')] removes at most one thing, at the
    end: the friendly name is the stripped name followed by nothing, or
    by a space and a non-empty parenthesised run without closing
    parenthesis; and it removes nothing exactly when the name has no
    ending of that form. *)
Theorem strip_user_removes_one_suffix (s : string) :
  (∃ rest, s = strip_user s +:+ rest ∧
     (rest = "" ∨
      ∃ v, rest = " (" +:+ v +:+ ")" ∧ v ≠ "" ∧ includes ")" v = false)) ∧
  (strip_user s = s ↔ ¬ has_spaced_suffix s).
Proof.
  split; [apply strip_user_split|]. split.
  - intros H Hs. by apply (strip_user_shortens s).
  - intros Hn. destruct (strip_user_split s) as (rest & H & [->|(v & -> & Hv & Hc)]).
    + by rewrite append_nil_r in H.
    + destruct Hn. by exists (strip_user s), v.
Qed.

(** The name ["Sleep (deep)x"] is left as it is, so it has no such
    ending. *)
Lemma strip_user_removes_one_suffix_witness : ¬ has_spaced_suffix "Sleep (deep)x".
Proof. apply (strip_user_removes_one_suffix "Sleep (deep)x"). reflexivity. Defined.

Lemma strip_user_no_space (s : string) : includes " " s = false → strip_user s = s.
Proof.
  induction s as [|a s IH]; [done|]. simpl.
  destruct (Ascii.eqb a " "); [done|]. simpl. intros H. by rewrite IH.
Qed.

Lemma strip_user_unspaced (name u : string) :
  parens_closed name → ends_with_space name = false →
  includes " " u = false →
  strip_user (name +:+ "(" +:+ u +:+ ")") = name +:+ "(" +:+ u +:+ ")".
Proof.
  intros Hc He Hu. induction name as [|a name IH].
  - rewrite append_nil. change ("(" +:+ u +:+ ")") with (String "(" (u +:+ ")")).
    simpl. rewrite strip_user_no_space; [done|].
    by rewrite includes_append, Hu.
  - rewrite append_cons. simpl.
    rewrite IH; [|by eapply parens_closed_tail|by destruct name].
    destruct (Ascii.eqb_spec a " ") as [->|_]; [|done]. simpl.
    destruct name as [|b name]; [done|]. rewrite append_cons.
    destruct (Ascii.eqb_spec b "(") as [->|_]; [|done]. simpl.
    rewrite group_to_close_closed; [done| |done].
    by apply (Hc " " name).
Qed.

(** X3: the two patterns differ by one space.  For a friendly name made
    of a name that does not end in a space, directly followed by the
    user in parentheses, the entity is grouped under that user and its
    card shows the whole friendly name, user included. *)
Theorem unspaced_name_shown_in_full h e st a name u :
  entity h e = Some (st, a, name +:+ "(" +:+ u +:+ ")") →
  parens_closed name → ends_with_space name = false →
  u ≠ "" → includes ")" u = false → includes " " u = false →
  key_of h e = Some u ∧
  ∃ icon_el unit_els,
    card_of h e = Some
      (Div "metric-card"
         ([ icon_el; TextDiv "metric-value" (state st);
            TextDiv "metric-name" (name +:+ "(" +:+ u +:+ ")") ] ++ unit_els)).
Proof.
  intros He Hc Hs Hu Hcl Hsp. split.
  - rewrite (key_of_entity _ _ _ _ _ He). by apply match_user_closed_prefix.
  - unfold card_of. rewrite He. simpl. unfold metric_card.
    rewrite strip_user_unspaced by done. by eexists _, _.
Qed.

(** ["Heart Rate(alice)"]: user ["alice"], shown as ["Heart Rate(alice)"]. *)
Lemma unspaced_name_shown_in_full_witness :
  key_of {| states := [("sensor.health_hr", sensor "Heart Rate(alice)" "61" None None)] |}
    "sensor.health_hr" = Some "alice" ∧
  ∃ icon_el unit_els,
    card_of {| states := [("sensor.health_hr", sensor "Heart Rate(alice)" "61" None None)] |}
      "sensor.health_hr" = Some
      (Div "metric-card"
         ([ icon_el; TextDiv "metric-value" "61";
            TextDiv "metric-name" "Heart Rate(alice)" ] ++ unit_els)).
Proof.
  apply (unspaced_name_shown_in_full
           {| states := [("sensor.health_hr", sensor "Heart Rate(alice)" "61" None None)] |}
           "sensor.health_hr"
           {| state := "61";
              attributes := Some {| friendly_name := Some "Heart Rate(alice)";
                                    unit_of_measurement := None; icon := None |} |}
           {| friendly_name := Some "Heart Rate(alice)";
              unit_of_measurement := None; icon := None |}
           "Heart Rate" "alice"); try reflexivity.
  - by apply parens_closedb_sound.
  - discriminate.
Defined.

End More_strings.

(** ** The filters, the grouping loop and the sections *)

Section More_grouping.
Import JsString JsObject HealthBridgeCard Spec Spec2 Sample.
Implicit Types (h : Hass) (e k : string) (m : JsObject.t (list string))
  (σ : heap) (w : HealthBridgeCard.t).

(** X4: [Object.keys] moves the entries named by array indices to the
    front, but no such entry passes the ['sensor.'] test: the filtered
    ids are exactly the ids of the state table that pass both filters, in
    the order in which the entries were created. *)
Theorem filtered_in_creation_order h :
  healthBridgeEntities h
  = filter (λ e, sensor_id e ∧ named_with_paren h e) (states h).*1 ∧
  healthBridgeEntities h `sublist_of` (states h).*1.
Proof.
  rewrite healthBridgeEntities_creation_order, list_filter_filter. split.
  - apply list_filter_iff. naive_solver.
  - apply sublist_filter.
Qed.

Lemma group_entity_Throw h e m m' err :
  group_entity h e m = (m', Throw err) →
  m' = m ∧ err = TypeError ∧
  (is_Some (entity h e) → ∃ k, key_of h e = Some k ∧ inherited k = true).
Proof.
  destruct err. unfold group_entity.
  destruct (entity h e) as [[[st a] fn]|] eqn:E.
  - rewrite (key_of_entity _ _ _ _ _ E).
    destruct (match_user fn) as [k|]; [|done]. destruct (truthy k); [|done].
    destruct (own_get k m); [done|]. destruct (inherited k) eqn:Hk; [|done].
    intros [= <-]. split_and!; [done..|]. intros _. by exists k.
  - intros [= <-]. split_and!; [done..|]. by intros [? ?].
Qed.

Lemma group_by_user_Throw h ids m0 m err :
  (∀ e, e ∈ ids → is_Some (entity h e)) →
  forEach (group_entity h) ids m0 = (m, Throw err) →
  ∃ e k, e ∈ ids ∧ key_of h e = Some k ∧ inherited k = true.
Proof.
  revert m0. induction ids as [|x ids IH]; intros m0 He; simpl; [done|].
  destruct (group_entity h x m0) as [m1 [|err1]] eqn:E.
  - intros H. destruct (IH m1) as (e & k & ? & ? & ?); [|done|].
    + intros. apply He. by right.
    + exists e, k. split_and!; [by right|done..].
  - intros _. apply group_entity_Throw in E as (_ & _ & Hk).
    destruct Hk as (k & ? & ?); [apply He; left|].
    exists x, k. split_and!; [left|done..].
Qed.

Lemma group_by_user_inherited h ids m0 :
  (∀ k, k ∈ m0.*1 → inherited k = false) →
  (∃ e k, e ∈ ids ∧ key_of h e = Some k ∧ inherited k = true) →
  (forEach (group_entity h) ids m0).2 = Throw TypeError.
Proof.
  revert m0. induction ids as [|x ids IH]; intros m0 Hm (e & k & He & Hk & Hi).
  { by apply elem_of_nil in He. }
  simpl. destruct (group_entity h x m0) as [m1 [|[]]] eqn:E; [|done].
  pose proof (group_entity_Normal _ _ _ _ E) as Hstep.
  assert (∀ k', k' ∈ m1.*1 → inherited k' = false) as Hm1.
  { destruct (key_of h x) as [k0|]; [|by subst].
    destruct Hstep as [-> Hnew]. intros k'.
    destruct (decide (k0 ∈ m0.*1)) as [Hin|Hin].
    - rewrite own_set_keys_old by done. apply Hm.
    - rewrite own_set_keys_new by done.
      intros [?|Heq%list_elem_of_singleton]%elem_of_app; [by apply Hm|].
      subst. apply Hnew. by apply own_get_None. }
  apply IH; [done|]. apply elem_of_cons in He as [->|He]; [|by exists e, k].
  exfalso. rewrite Hk in Hstep. destruct Hstep as [_ Hnew].
  destruct (own_get k m0) as [ids0|] eqn:E0.
  - apply own_get_Some_keys in E0. apply Hm in E0. congruence.
  - rewrite Hnew in Hi; done.
Qed.

(** X5: on a configured card the assignment of a state table throws,
    with a [TypeError], exactly when some filtered entity has a user
    named like a property every object inherits; and whenever it does not
    end normally the container holds the header and nothing else. *)
Theorem throws_iff_inherited_user σ w cfg h :
  config w = Some cfg →
  ((set_hass σ h w).2 = Throw TypeError ↔
   ∃ e k, e ∈ healthBridgeEntities h ∧ key_of h e = Some k ∧ inherited k = true) ∧
  ((set_hass σ h w).2 ≠ Normal →
   content (set_hass σ h w).1 = Some [header σ cfg]).
Proof.
  intros Hc. rewrite (set_hass_configured _ _ _ _ Hc). simpl.
  rewrite draw_throw_iff. split; [split|].
  - destruct (group_by_user h (healthBridgeEntities h)) as [m [|err]] eqn:E; [done|].
    intros _. eapply group_by_user_Throw; [|exact E].
    apply healthBridgeEntities_entity.
  - apply group_by_user_inherited. by intros k ?%elem_of_nil.
  - destruct (group_by_user h (healthBridgeEntities h)) as [m [|err]] eqn:E; [done|].
    intros _. by rewrite (draw_throw _ _ _ _ _ E).
Qed.

(** A user called ["toString"], after a user that is drawn alone. *)
Lemma throws_iff_inherited_user_witness :
  (set_hass titled_config
     {| states := [ ("sensor.health_steps_a", sensor "Steps (alice)" "1" None None);
                    ("sensor.health_steps_b", sensor "Steps (toString)" "2" None None) ] |}
     configured).2 = Throw TypeError.
Proof.
  apply (throws_iff_inherited_user titled_config configured 1%positive); [reflexivity|].
  exists "sensor.health_steps_b", "toString". split_and!; [|reflexivity..].
  vm_compute. set_solver.
Defined.

Lemma own_keys_perm {A} (o : JsObject.t A) : own_keys o ≡ₚ o.*1.
Proof.
  unfold own_keys. rewrite index_keys_perm.
  rewrite Permutation_app_comm. apply filter_app_complement.
Qed.

Lemma own_set_values k e m :
  mjoin (own_set k (default [] (own_get k m) ++ [e]) m).*2 ≡ₚ mjoin m.*2 ++ [e].
Proof.
  induction m as [|[k' v] m IH]; [done|]. simpl.
  case_decide as Hk; simpl.
  - by rewrite <-app_assoc, (Permutation_app_comm [e]), app_assoc.
  - rewrite IH. by rewrite app_assoc.
Qed.

Lemma group_by_user_values h ids m :
  group_by_user h ids = (m, Normal) →
  mjoin m.*2 ≡ₚ filter (λ e, is_Some (key_of h e)) ids.
Proof.
  unfold group_by_user. revert m.
  induction ids as [|e ids IH] using rev_ind; intros m.
  - by intros [= <-].
  - rewrite forEach_app.
    destruct (forEach (group_entity h) ids []) as [m1 [|err]]; [|done].
    simpl. destruct (group_entity h e m1) as [m2 [|err]] eqn:E; [|done].
    intros [= <-]. apply group_entity_Normal in E.
    rewrite filter_app. destruct (key_of h e) as [k|] eqn:Ek.
    + destruct E as [-> _]. rewrite (own_set_values k e m1), (IH m1) by done.
      by rewrite filter_cons_True, filter_nil by (rewrite Ek; by eexists).
    + subst m2. rewrite (IH m1) by done.
      rewrite filter_cons_False by (rewrite Ek; by intros [? ?]).
      by rewrite filter_nil, app_nil_r.
Qed.

Lemma own_get_values {A} (o : JsObject.t A) (d : A) :
  NoDup o.*1 → (λ k, default d (own_get k o)) <$> o.*1 = o.*2.
Proof.
  induction o as [|[k v] o IH]; [done|]. rewrite fmap_cons.
  intros [Hk Ho]%NoDup_cons. csimpl.
  rewrite decide_True by done. simpl. f_equal. rewrite <-IH by done.
  apply list_fmap_ext. intros i k' Hi. rewrite decide_False; [done|].
  intros ->. apply Hk. by eapply list_elem_of_lookup_2.
Qed.

Lemma grouped_ids_perm h m :
  group_by_user h (healthBridgeEntities h) = (m, Normal) →
  grouped_ids m ≡ₚ filter (λ e, is_Some (key_of h e)) (healthBridgeEntities h).
Proof.
  intros Hm. unfold grouped_ids. rewrite own_keys_perm.
  rewrite <-(group_by_user_values _ _ _ Hm).
  destruct (group_by_user_grouped _ _ _ Hm) as [Hk _].
  rewrite <-(own_get_values m []) by (rewrite Hk; apply first_seen_NoDup).
  rewrite list_join_bind.
  by rewrite (list_fmap_bind (λ k, default [] (own_get k m)) id m.*1).
Qed.

Lemma cards_app h ids1 ids2 : cards h (ids1 ++ ids2) = cards h ids1 ++ cards h ids2.
Proof. apply omap_app. Qed.

Lemma cards_length h ids :
  (∀ e, e ∈ ids → is_Some (entity h e)) → length (cards h ids) = length ids.
Proof.
  induction ids as [|e ids IH]; intros He; [done|]. unfold cards. csimpl.
  destruct (He e) as [[[st a] fn] E]; [left|].
  unfold card_of at 1. rewrite E. simpl. f_equal. apply IH.
  intros. apply He. by right.
Qed.

Lemma section_cards_sections h m ks :
  (section_of h m <$> ks) ≫= section_cards
  = cards h (ks ≫= λ k, default [] (own_get k m)).
Proof.
  induction ks as [|k ks IH]; [done|].
  rewrite fmap_cons, !bind_cons, cards_app, IH. done.
Qed.

(** X6: when the assignment ends normally, the cards of the user
    sections, read section by section, are the cards of a rearrangement
    of the filtered entities that yield a key: each of them has one card,
    and there is no other card. *)
Theorem one_card_per_keyed_entity σ w cfg h :
  config w = Some cfg →
  (set_hass σ h w).2 = Normal →
  ∃ ids,
    ids ≡ₚ filter (λ e, is_Some (key_of h e)) (healthBridgeEntities h) ∧
    user_sections (default [] (content (set_hass σ h w).1)) ≫= section_cards
      = cards h ids ∧
    length (cards h ids) = length ids.
Proof.
  intros Hc Hr. destruct (set_hass_Normal _ _ _ _ Hc Hr) as (m & Hm & Hsec).
  exists (grouped_ids m). split_and!.
  - by apply grouped_ids_perm.
  - rewrite Hsec. apply section_cards_sections.
  - apply cards_length. intros e He. apply healthBridgeEntities_entity.
    pose proof (grouped_ids_perm _ _ Hm) as Hp. rewrite Hp in He.
    by apply list_elem_of_filter in He as [_ ?].
Qed.

(** The table of the examples: three keyed sensors, three cards. *)
Lemma one_card_per_keyed_entity_witness :
  ∃ ids,
    ids ≡ₚ filter (λ e, is_Some (key_of alice_and_bob e))
             (healthBridgeEntities alice_and_bob) ∧
    user_sections (default [] (content (set_hass titled_config alice_and_bob configured).1))
      ≫= section_cards = cards alice_and_bob ids ∧
    length (cards alice_and_bob ids) = length ids.
Proof.
  apply (one_card_per_keyed_entity titled_config configured 1%positive); reflexivity.
Defined.

Lemma user_headers_sections h m ks :
  user_headers (section_of h m <$> ks) = (λ k, "User: " +:+ k) <$> ks.
Proof.
  unfold user_headers, user_sections.
  induction ks as [|k ks IH]; [done|].
  rewrite fmap_cons, filter_cons_True by exact I. csimpl. by rewrite IH.
Qed.

Lemma user_sections_idemp (children : list node) :
  user_sections (user_sections children) = user_sections children.
Proof.
  unfold user_sections. rewrite list_filter_filter.
  apply list_filter_iff. naive_solver.
Qed.

(** X7: when the assignment ends normally, the headers of the sections
    are ["User: "] followed by a user, for a list of users without
    repetition that holds exactly the keys of the filtered entities: each
    user has one section. *)
Theorem one_section_per_user σ w cfg h :
  config w = Some cfg →
  (set_hass σ h w).2 = Normal →
  ∃ users,
    user_headers (default [] (content (set_hass σ h w).1))
      = (λ k, "User: " +:+ k) <$> users ∧
    NoDup users ∧
    ∀ k, k ∈ users ↔ ∃ e, e ∈ healthBridgeEntities h ∧ key_of h e = Some k.
Proof.
  intros Hc Hr. destruct (set_hass_Normal _ _ _ _ Hc Hr) as (m & Hm & Hsec).
  destruct (group_by_user_grouped _ _ _ Hm) as [Hk _].
  exists (own_keys m). split_and!.
  - unfold user_headers. rewrite Hsec.
    rewrite <-(user_headers_sections h m). unfold user_headers.
    by rewrite <-Hsec, user_sections_idemp.
  - rewrite own_keys_perm, Hk. apply first_seen_NoDup.
  - intros k. rewrite elem_of_own_keys, Hk, first_seen_elem_of.
    apply elem_of_omap_key.
Qed.

(** The table of the examples has the sections of two users. *)
Lemma one_section_per_user_witness :
  ∃ users,
    user_headers (default [] (content (set_hass titled_config alice_and_bob configured).1))
      = (λ k, "User: " +:+ k) <$> users ∧
    NoDup users ∧
    ∀ k, k ∈ users ↔
         ∃ e, e ∈ healthBridgeEntities alice_and_bob ∧ key_of alice_and_bob e = Some k.
Proof.
  apply (one_section_per_user titled_config configured 1%positive); reflexivity.
Defined.

(** X8: when the assignment ends normally, no user section is drawn with
    an empty grid. *)
Theorem no_empty_section σ w cfg h n :
  config w = Some cfg →
  (set_hass σ h w).2 = Normal →
  n ∈ user_sections (default [] (content (set_hass σ h w).1)) →
  section_cards n ≠ [].
Proof.
  intros Hc Hr Hn. destruct (set_hass_Normal _ _ _ _ Hc Hr) as (m & Hm & Hsec).
  rewrite Hsec in Hn. apply list_elem_of_fmap in Hn as (k & -> & Hk).
  apply elem_of_own_keys in Hk.
  pose proof (group_by_user_grouped _ _ _ Hm) as Hg.
  destruct Hg as [Hkeys Hg'].
  pose proof Hk as Hk'. rewrite Hkeys, first_seen_elem_of in Hk'.
  apply elem_of_omap_key in Hk' as (e & He & Hkey).
  unfold section_of. rewrite (Hg' k Hk). simpl.
  destruct (healthBridgeEntities_entity _ _ He) as [[[st a] fn] Hent].
  assert (metric_card st a fn ∈
            cards h (filter (λ e', key_of h e' = Some k) (healthBridgeEntities h))) as Hin.
  { apply list_elem_of_omap. exists e. split; [by apply list_elem_of_filter|].
    unfold card_of. by rewrite Hent. }
  intros Hnil. rewrite Hnil in Hin. by apply elem_of_nil in Hin.
Qed.

(** The section of ["bob"] in the table of the examples. *)
Lemma no_empty_section_witness :
  section_cards (section_of alice_and_bob
    (group_by_user alice_and_bob (healthBridgeEntities alice_and_bob)).1 "bob") ≠ [].
Proof.
  apply (no_empty_section titled_config configured 1%positive alice_and_bob);
    [reflexivity..|]. vm_compute. set_solver.
Defined.

(** X9: on a configured card the placeholder is in the container exactly
    when no entity passes the filters, and it never stands beside a user
    section. *)
Theorem placeholder_iff_nothing_filtered σ w cfg h :
  config w = Some cfg →
  (placeholder ∈ default [] (content (set_hass σ h w).1)
   ↔ healthBridgeEntities h = []) ∧
  (placeholder ∈ default [] (content (set_hass σ h w).1) →
   user_sections (default [] (content (set_hass σ h w).1)) = []).
Proof.
  intros Hc. rewrite (set_hass_configured _ _ _ _ Hc). simpl.
  destruct (decide (healthBridgeEntities h = [])) as [H0|H0].
  - rewrite draw_empty by done. simpl. split; [|done].
    split; [done|]. intros _. set_solver.
  - assert (placeholder ∉ (draw σ cfg h).1) as Hnot.
    { destruct (group_by_user h (healthBridgeEntities h)) as [m [|err]] eqn:E.
      - rewrite (draw_sections _ _ _ _ E H0). simpl.
        intros [?|Hin]%elem_of_cons; [done|].
        by apply list_elem_of_fmap in Hin as (k & ? & _).
      - rewrite (draw_throw _ _ _ _ _ E). simpl.
        by intros ?%list_elem_of_singleton. }
    split; [split|]; done.
Qed.

(** A table of lights only. *)
Lemma placeholder_iff_nothing_filtered_witness :
  placeholder ∈ default [] (content
    (set_hass titled_config
       {| states := [("light.kitchen", sensor "Kitchen (alice)" "on" None None)] |}
       configured).1).
Proof.
  apply (placeholder_iff_nothing_filtered titled_config configured 1%positive);
    reflexivity.
Defined.

End More_grouping.

(** ** [setConfig], the shadow tree and the registration *)

Section More_card.
Import JsString JsObject HealthBridgeCard Spec Spec2 Sample.
Implicit Types (h : Hass) (σ : heap) (w : HealthBridgeCard.t).

(** X10: [setConfig] called a second time with the same object changes
    nothing: the first call has made the title truthy, so the second one
    leaves the store and the card as the first one left them. *)
Theorem setConfig_twice σ w l :
  setConfig (VRef l) (setConfig (VRef l) σ w).1.1 (setConfig (VRef l) σ w).1.2
  = setConfig (VRef l) σ w.
Proof.
  destruct (prim_truthy (get_title (deref σ l))) eqn:Ht.
  - rewrite (setConfig_truthy σ w l Ht). cbn [fst snd]. by rewrite setConfig_truthy.
  - destruct (accepts "title" (cell σ l)) eqn:Ha.
    + rewrite (setConfig_written σ w l Ht Ha). cbn [fst snd].
      rewrite setConfig_truthy; [done|].
      unfold deref at 1. rewrite cell_insert. simpl.
      unfold get_title. by rewrite own_get_set_eq.
    + rewrite (setConfig_refused σ w l Ht Ha). cbn [fst snd].
      by apply setConfig_refused.
Qed.

Lemma prim_text_truthy (p : prim) : prim_truthy p = true → prim_text p ≠ "".
Proof. by destruct p as [| |[]|[]]. Qed.

(** X11: once [setConfig] has returned for an object, every assignment
    of a state table draws a header first, and its text is not empty. *)
Theorem header_never_empty σ w l hs h :
  let '(σ', w', r) := setConfig (VRef l) σ w in
  r = Normal →
  ∃ text rest,
    content (set_hass σ' h (updates σ' hs w')).1
      = Some (TextDiv "header" text :: rest) ∧ text ≠ "".
Proof.
  pose proof (setConfig_Normal σ w l) as H.
  destruct (setConfig (VRef l) σ w) as [[σ' w'] r]. simpl in H.
  intros Hr. destruct (H Hr) as [Hc Ht].
  destruct (updates_header σ' l hs h w' Hc) as [rest Hrest].
  eexists _, rest. split; [exact Hrest|]. by apply prim_text_truthy.
Qed.

(** The empty configuration, and two assignments. *)
Lemma header_never_empty_witness :
  ∃ text rest,
    content (set_hass (setConfig (VRef 1%positive) empty_config new).1.1 alice_and_bob
               (updates (setConfig (VRef 1%positive) empty_config new).1.1 [open_paren]
                  (setConfig (VRef 1%positive) empty_config new).1.2)).1
      = Some (TextDiv "header" text :: rest) ∧ text ≠ "".
Proof.
  pose proof (header_never_empty empty_config new 1%positive [open_paren] alice_and_bob) as H.
  destruct (setConfig (VRef 1%positive) empty_config new) as [[σ1 w1] r1] eqn:E.
  apply H. by injection E.
Defined.

(** X14: the object of [getStubConfig], frozen or not, passes [setConfig]
    untouched, and the card configured with it shows the header
    ["Health Bridge"] on every assignment of a state table. *)
Theorem stub_config_accepted σ w l hs h :
  deref σ l = getStubConfig →
  setConfig (VRef l) σ w
    = (σ, {| _hass := _hass w; config := Some l; content := content w |}, Normal) ∧
  ∃ rest,
    content (set_hass σ h (updates σ hs (setConfig (VRef l) σ w).1.2)).1
      = Some (TextDiv "header" "Health Bridge" :: rest).
Proof.
  intros Hd.
  assert (prim_truthy (get_title (deref σ l)) = true) as Ht by (by rewrite Hd).
  rewrite (setConfig_truthy _ _ _ Ht). split; [done|]. simpl.
  destruct (updates_header σ l hs h
              {| _hass := _hass w; config := Some l; content := content w |} eq_refl)
    as [rest Hrest].
  exists rest. by rewrite Hrest, Hd.
Qed.

(** The stub in the store of the examples. *)
Lemma stub_config_accepted_witness :
  ∃ rest,
    content (set_hass titled_config alice_and_bob
               (updates titled_config [open_paren]
                  (setConfig (VRef 1%positive) titled_config new).1.2)).1
      = Some (TextDiv "header" "Health Bridge" :: rest).
Proof.
  apply (stub_config_accepted titled_config new 1%positive [open_paren] alice_and_bob).
  reflexivity.
Defined.

End More_card.

Section More_element.
Import JsString JsObject HealthBridgeCard Spec Spec2.

Lemma set_hass_content σ h w : is_Some (content (set_hass σ h w).1).
Proof.
  destruct (config w) as [cfg|] eqn:Hc.
  - rewrite (set_hass_configured _ _ _ _ Hc). by eexists.
  - rewrite (set_hass_unconfigured _ _ _ Hc). by eexists.
Qed.

Lemma setConfig_content cfg σ w :
  content (setConfig cfg σ w).1.2 = content w.
Proof.
  destruct cfg as [p|l]; [done|]. simpl.
  destruct (prim_truthy _); [done|]. by destruct (accepts _ _).
Qed.

Lemma element_step c s s' :
  element_agrees s s' → element_agrees (Element.step c s) (Element.step_card c s').
Proof.
  destruct s as [σ el], s' as [σ' w]. intros (Hσ & Hw & Hsh). simpl in *. subst.
  destruct c as [cfg|h]; simpl.
  - unfold Element.setConfig.
    pose proof (setConfig_content cfg σ' (Element.card el)) as Hcont.
    destruct (setConfig cfg σ' (Element.card el)) as [[σ1 w1] r]. simpl in *.
    unfold element_agrees. simpl. by rewrite Hcont.
  - pose proof (set_hass_content σ' h (Element.card el)) as [c Hc].
    unfold Element.set_hass, set_hass in *. simpl in *.
    destruct (content (Element.card el)) as [children|] eqn:Hcont; simpl in *;
      destruct (updateCard σ' _) as [w2 r]; simpl in *;
      unfold element_agrees; simpl; by rewrite Hc, Hsh.
Qed.

Lemma element_run cs s s' :
  element_agrees s s' →
  element_agrees (Element.run cs s) (foldl (λ s c, Element.step_card c s) s' cs).
Proof.
  revert s s'. induction cs as [|c cs IH]; intros s s' H; [done|].
  simpl. apply IH. by apply element_step.
Qed.

Lemma step_card_content c s :
  content (Element.step_card c s).2 = None ↔
  content s.2 = None ∧ ∀ h, c ≠ Element.SetHass h.
Proof.
  destruct s as [σ w]. destruct c as [cfg|h]; simpl.
  - rewrite setConfig_content. naive_solver.
  - destruct (set_hass_content σ h w) as [c Hc]. rewrite Hc. naive_solver.
Qed.

Lemma run_card_content cs s :
  content (foldl (λ s c, Element.step_card c s) s cs).2 = None ↔
  content s.2 = None ∧ ∀ h, Element.SetHass h ∉ cs.
Proof.
  revert s. induction cs as [|c cs IH]; intros s; simpl.
  - split; [intros ?; split; [done|]; intros h ?%elem_of_nil; done|by intros [? _]].
  - rewrite IH, step_card_content. split.
    + intros [[H0 Hc] Hcs]. split; [done|]. intros h [Heq|?]%elem_of_cons.
      * by apply (Hc h).
      * by apply (Hcs h).
    + intros [H0 Hcs]. split_and!; [done|..].
      * intros h ->. apply (Hcs h). left.
      * intros h ?. apply (Hcs h). by right.
Qed.

(** X12: whatever calls of [setConfig] and of the [hass] setter an
    element receives after its construction, exceptions included, its
    fields are those of the card alone under the same calls; its shadow
    root is empty as long as no state table has been assigned, and from
    the first assignment on it holds the container followed by one style
    element, never a second one. *)
Theorem shadow_root_has_one_style σ cs :
  let s := Element.run cs (σ, Element.construct) in
  (s.1, Element.card s.2) = foldl (λ s c, Element.step_card c s) (σ, new) cs ∧
  ((∀ h, Element.SetHass h ∉ cs) → Element.shadowChildren s.2 = []) ∧
  ((∃ h, Element.SetHass h ∈ cs) →
     Element.shadowChildren s.2
     = [Element.Container; Element.StyleElement style_text]) ∧
  Element.tree s.2 = shadowRoot (Element.card s.2).
Proof.
  intros s. pose proof (element_run cs (σ, Element.construct) (σ, new)) as H.
  fold s in H. destruct H as (Hσ & Hw & Hsh); [done|].
  pose proof (run_card_content cs (σ, new)) as Hnone. simpl in Hnone.
  set (s' := foldl (λ s c, Element.step_card c s) (σ, new) cs) in *.
  split_and!.
  - rewrite Hσ, Hw. by destruct s'.
  - intros Hno. rewrite Hsh. by rewrite (proj2 Hnone (conj eq_refl Hno)).
  - intros [h Hh]. rewrite Hsh. destruct (content s'.2) eqn:Hc; [done|].
    destruct (proj1 Hnone eq_refl) as [_ Hno]. by destruct (Hno h).
  - unfold Element.tree, shadowRoot. rewrite Hsh, Hw.
    by destruct (content s'.2).
Qed.

(** Two assignments around a [setConfig]. *)
Lemma shadow_root_has_one_style_witness :
  Element.shadowChildren
    (Element.run [ Element.SetHass Sample.open_paren;
                   Element.SetConfig (VRef 1%positive);
                   Element.SetHass Sample.alice_and_bob ]
       (Sample.empty_config, Element.construct)).2
  = [Element.Container; Element.StyleElement style_text] ∧
  Element.shadowChildren
    (Element.run [ Element.SetConfig (VRef 1%positive) ]
       (Sample.empty_config, Element.construct)).2 = [].
Proof.
  split.
  - apply (shadow_root_has_one_style Sample.empty_config).
    exists Sample.open_paren. left.
  - apply (shadow_root_has_one_style Sample.empty_config).
    intros h [Hh|Hh%elem_of_nil]%elem_of_cons; [discriminate|done].
Defined.

End More_element.

Section More_registration.
Import Registration.

Lemma loads_defined n w : tag ∈ customElements w → loads n w = w.
Proof.
  intros H. induction n as [|n IH]; [done|]. simpl. unfold load.
  by rewrite bool_decide_eq_true_2.
Qed.

(** X13: when the tag is not defined yet, evaluating the script any
    positive number of times defines the tag once and leaves in
    [window.customCards] the descriptions that were there, in their order,
    followed by the one description of this card; every evaluation after
    the first ends with a [NotSupportedError] before it reaches
    [window.customCards]. *)
Theorem registers_once w n :
  tag ∉ customElements w →
  customElements (loads (S n) w) = customElements w ++ [tag] ∧
  customCards (loads (S n) w) = Some (default [] (customCards w) ++ [info]) ∧
  load (loads (S n) w) = (loads (S n) w, NotSupportedError).
Proof.
  intros H. simpl.
  assert (tag ∈ customElements (load w).1) as Hin.
  { unfold load. rewrite bool_decide_eq_false_2 by done. simpl.
    apply elem_of_app. right. left. }
  rewrite (loads_defined n _ Hin). split_and!.
  - unfold load. by rewrite bool_decide_eq_false_2.
  - unfold load. by rewrite bool_decide_eq_false_2.
  - unfold load at 1. by rewrite bool_decide_eq_true_2.
Qed.

(** Three evaluations on a page where another card is listed. *)
Lemma registers_once_witness :
  customCards
    (loads 3 {| customElements := ["other-card"];
                customCards := Some [ {| type := "other-card"; name := "Other";
                                         description := "" |} ] |})
  = Some [ {| type := "other-card"; name := "Other"; description := "" |}; info ].
Proof.
  apply (registers_once
           {| customElements := ["other-card"];
              customCards := Some [ {| type := "other-card"; name := "Other";
                                       description := "" |} ] |} 2).
  vm_compute. set_solver.
Defined.

End More_registration.
